(** * ssh-mcp-npx: credential store and SSH connection manager

    A shallow embedding of [src/server-config.ts] (class
    [ServerConfigManager]) and [src/ssh-connection.ts] (class
    [SSHConnectionManager]), with the properties of the specification
    stated and settled against it.

    Conventions of the embedding.
    - A method that mutates [this] becomes a function from the state of
      the object to the new state and a completion: [Returned v] for a
      normal return, [Threw e] for an exception.  An exception does not
      undo the assignments made before it, so the state is returned in
      both cases.
    - An [async] method or a [new Promise] becomes a function that is
      given the answers of the environment (clock readings, file system
      outcomes, transport events) and returns the state of the promise:
      [Resolved v], [Rejected e] or [Pending].
    - [Record<string, SSHServerConfig>] is a finite map over strings; the
      names range over the keys the store holds itself (the members a
      JavaScript object inherits from its prototype are outside the
      model). *)

From stdpp Require Import base option list strings gmap pretty.
From Stdlib Require Import ZArith Lia.

Local Open Scope string_scope.
Local Open Scope Z_scope.

(** ** JavaScript values shared by both classes *)

(** Error values.  [Error] is [new Error(message)] as this code raises
    it; [TypeError] is what the runtime raises when a missing method is
    called; [FsError] and [TransportError] are the errors of [fs] and of
    the [ssh2] client, with their diagnostic. *)
Inductive error : Type :=
| Error (message : string)
| TypeError (message : string)
| FsError (diag : string)
| TransportError (diag : string).

(** Completion of a synchronous call. *)
Inductive completion (A : Type) : Type :=
| Returned (value : A)
| Threw (e : error).
Arguments Returned {A} value.
Arguments Threw {A} e.

(** State of a promise. *)
Inductive outcome (A : Type) : Type :=
| Resolved (value : A)
| Rejected (e : error)
| Pending.
Arguments Resolved {A} value.
Arguments Rejected {A} e.
Arguments Pending {A}.

(** Truthiness of a string, and of an optional string ([undefined] is
    falsy, and so is the empty string). *)
Definition truthy (s : string) : bool :=
  match s with
  | EmptyString => false
  | String _ _ => true
  end.

Definition truthy_opt (o : option string) : bool :=
  match o with
  | Some s => truthy s
  | None => false
  end.

(** [a || b] on optional strings. *)
Definition or_else (a b : option string) : option string :=
  if truthy_opt a then a else b.

(** The error kinds of the specification, as the messages the code
    raises them with. *)
Definition NoTargetError : error :=
  Error "No server specified and no default server configured".
Definition UnknownServerError (name : string) : error :=
  Error ("Server '" +:+ name +:+ "' not found in configuration").
Definition CommandTimeoutError (timeout : Z) : error :=
  Error ("Command timeout after " +:+ pretty timeout +:+ "s").
Definition DuplicateServerError (name : string) : error :=
  Error ("Server '" +:+ name +:+ "' already exists").
Definition ServerNotFoundError (name : string) : error :=
  Error ("Server '" +:+ name +:+ "' not found").

(** ** server-config.ts *)

Module ServerConfigManager.

Record SSHServerConfig : Type := {
  name : string;
  host : string;
  port : Z;
  username : string;
  password : option string;
  key_path : option string;
  description : option string;
  proxy_command : option string
}.

(** The argument of [addServer]: [Omit<SSHServerConfig, "port"> & { port?: number }]. *)
Record AddServerInput : Type := {
  in_name : string;
  in_host : string;
  in_port : option Z;
  in_username : string;
  in_password : option string;
  in_key_path : option string;
  in_description : option string;
  in_proxy_command : option string
}.

Record ServerConfigData : Type := {
  default_server : option string;
  servers : gmap string SSHServerConfig
}.

(** The object: its [config] field, and the document that
    [configPath] holds on disk ([None] when the file does not exist).
    [JSON.stringify] of the configuration is the configuration. *)
Record t : Type := {
  config : ServerConfigData;
  disk : option ServerConfigData
}.

(** What [loadConfig] returns when there is no file: [{ servers: {} }]. *)
Definition empty_config : ServerConfigData :=
  {| default_server := None; servers := ∅ |}.

Definition empty_store : t :=
  {| config := empty_config; disk := None |}.

(** Outcome of [fs.writeFileSync], decided by the environment. *)
Inductive write_result : Type :=
| WriteOk
| WriteFails (diag : string).

(** [saveConfig]: write the whole document; a failure is logged and
    thrown again. *)
Definition saveConfig (w : write_result) (s : t) : t * completion unit :=
  match w with
  | WriteOk => ({| config := config s; disk := Some (config s) |}, Returned tt)
  | WriteFails d => (s, Threw (FsError d))
  end.

(** [config.port || 22]: an absent port and the port 0 both give 22. *)
Definition port_or_default (p : option Z) : Z :=
  match p with
  | Some n => if n =? 0 then 22 else n
  | None => 22
  end.

Definition make_server (i : AddServerInput) : SSHServerConfig :=
  {| name := in_name i;
     host := in_host i;
     port := port_or_default (in_port i);
     username := in_username i;
     password := in_password i;
     key_path := in_key_path i;
     description := in_description i;
     proxy_command := in_proxy_command i |}.

Definition getServer (nm : string) (s : t) : option SSHServerConfig :=
  servers (config s) !! nm.

Definition getDefaultServer (s : t) : option string :=
  default_server (config s).

Definition addServer (w : write_result) (i : AddServerInput) (s : t)
  : t * completion SSHServerConfig :=
  let nm := in_name i in
  match servers (config s) !! nm with
  | Some _ => (s, Threw (DuplicateServerError nm))
  | None =>
      let serverConfig := make_server i in
      let s1 := {| config := {| default_server := default_server (config s);
                                servers := <[nm := serverConfig]> (servers (config s)) |};
                   disk := disk s |} in
      match saveConfig w s1 with
      | (s2, Returned _) => (s2, Returned serverConfig)
      | (s2, Threw e) => (s2, Threw e)
      end
  end.

Definition deleteServer (w : write_result) (nm : string) (s : t)
  : t * completion bool :=
  match servers (config s) !! nm with
  | None => (s, Threw (ServerNotFoundError nm))
  | Some _ =>
      let servers1 := delete nm (servers (config s)) in
      let default1 :=
        if decide (default_server (config s) = Some nm) then None
        else default_server (config s) in
      let s1 := {| config := {| default_server := default1; servers := servers1 |};
                   disk := disk s |} in
      match saveConfig w s1 with
      | (s2, Returned _) => (s2, Returned true)
      | (s2, Threw e) => (s2, Threw e)
      end
  end.

Definition setDefaultServer (w : write_result) (nm : string) (s : t)
  : t * completion bool :=
  match servers (config s) !! nm with
  | None => (s, Threw (ServerNotFoundError nm))
  | Some _ =>
      let s1 := {| config := {| default_server := Some nm;
                                servers := servers (config s) |};
                   disk := disk s |} in
      match saveConfig w s1 with
      | (s2, Returned _) => (s2, Returned true)
      | (s2, Threw e) => (s2, Threw e)
      end
  end.

(** The mutating operations of the tool surface, with the outcome the
    file system gives to the write each of them attempts. *)
Inductive store_op : Type :=
| add_server (i : AddServerInput) (w : write_result)
| delete_server (nm : string) (w : write_result)
| set_default (nm : string) (w : write_result).

(** What the caller sees of an operation: success or the error. *)
Definition forget {A : Type} (c : completion A) : completion unit :=
  match c with
  | Returned _ => Returned tt
  | Threw e => Threw e
  end.

Definition run_op (o : store_op) (s : t) : t * completion unit :=
  match o with
  | add_server i w => let '(s', c) := addServer w i s in (s', forget c)
  | delete_server nm w => let '(s', c) := deleteServer w nm s in (s', forget c)
  | set_default nm w => let '(s', c) := setDefaultServer w nm s in (s', forget c)
  end.

(** A sequence of operations; a failed operation is reported to its
    caller and the next one runs on the state it left. *)
Definition run_ops (ops : list store_op) (s : t) : t :=
  fold_left (fun acc o => fst (run_op o acc)) ops s.

Definition write_of (o : store_op) : write_result :=
  match o with
  | add_server _ w | delete_server _ w | set_default _ w => w
  end.

(** The default pointer, when set, names an existing credential. *)
Definition default_ok (s : t) : Prop :=
  ∀ d, default_server (config s) = Some d → is_Some (servers (config s) !! d).

End ServerConfigManager.

(** ** ssh-connection.ts *)

Module SSHConnectionManager.

Import ServerConfigManager.

(** A session.  [client] names the [ssh2] client object the session
    holds (the n-th [new Client()] of the process). *)
Record SSHConnection : Type := {
  id : string;
  server_name : string;
  client : nat;
  connected : bool;
  connected_at : Z
}.

Record CommandResult : Type := {
  stdout : string;
  stderr : string;
  exit_code : option Z;
  duration : Z
}.

(** The value held by the field [connections].  Its declared type is
    [Map<string, SSHConnection>]; the compiled unit initialises it with
    [new Map()], the TypeScript source with the array literal [[]], so
    both kinds of object are modelled, each with the methods it has.  A
    [Map] keeps its entries in insertion order. *)
Inductive registry : Type :=
| JSArray (elems : list SSHConnection)
| JSMap (entries : list (string * SSHConnection)).

(** [Map.prototype.set]: an existing key keeps its place. *)
Fixpoint Map_set (k : string) (v : SSHConnection)
    (m : list (string * SSHConnection)) : list (string * SSHConnection) :=
  match m with
  | [] => [(k, v)]
  | (k', v') :: rest =>
      if decide (k' = k) then (k, v) :: rest else (k', v') :: Map_set k v rest
  end.

Fixpoint Map_get (k : string) (m : list (string * SSHConnection))
  : option SSHConnection :=
  match m with
  | [] => None
  | (k', v') :: rest => if decide (k' = k) then Some v' else Map_get k rest
  end.

Fixpoint Map_delete (k : string) (m : list (string * SSHConnection))
  : list (string * SSHConnection) :=
  match m with
  | [] => []
  | (k', v') :: rest =>
      if decide (k' = k) then Map_delete k rest else (k', v') :: Map_delete k rest
  end.

(** The method calls the class makes on [this.connections].  An array
    has [values] and [entries] but no [set], [get] or [delete], and its
    [size] is [undefined] ([None]). *)
Definition values (r : registry) : list SSHConnection :=
  match r with
  | JSArray l => l
  | JSMap m => map snd m
  end.

Definition set (k : string) (v : SSHConnection) (r : registry) : completion registry :=
  match r with
  | JSArray _ => Threw (TypeError "this.connections.set is not a function")
  | JSMap m => Returned (JSMap (Map_set k v m))
  end.

Definition get (k : string) (r : registry) : completion (option SSHConnection) :=
  match r with
  | JSArray _ => Threw (TypeError "this.connections.get is not a function")
  | JSMap m => Returned (Map_get k m)
  end.

Definition delete (k : string) (r : registry) : completion registry :=
  match r with
  | JSArray _ => Threw (TypeError "this.connections.delete is not a function")
  | JSMap m => Returned (JSMap (Map_delete k m))
  end.

Definition size (r : registry) : option nat :=
  match r with
  | JSArray _ => None
  | JSMap m => Some (length m)
  end.

(** The argument of [client.connect]. *)
Record ConnectConfig : Type := {
  cc_host : string;
  cc_port : Z;
  cc_username : string;
  cc_readyTimeout : Z;
  cc_privateKey : option string;
  cc_password : option string
}.

(** What the object does to the transports, in order. *)
Inductive transport_action : Type :=
| ClientConnect (c : nat) (cfg : ConnectConfig)
| ClientExec (c : nat) (command : string)
| ClientEnd (c : nat)
| ListenerThrew (c : nat) (e : error).

(** The object.  [configManager] is the store it was constructed with;
    [clients] counts the [Client] objects created so far and [actions]
    records the calls made on them (both belong to the environment and
    are kept here to state what a call did). *)
Record t : Type := {
  connections : registry;
  configManager : ServerConfigManager.t;
  connectionCounter : Z;
  clients : nat;
  actions : list transport_action
}.

(** The two initial states: the field initialiser of the compiled unit
    and the one of the TypeScript source. *)
Definition new_compiled (cfg : ServerConfigManager.t) : t :=
  {| connections := JSMap []; configManager := cfg; connectionCounter := 0;
     clients := 0; actions := [] |}.

Definition new_source (cfg : ServerConfigManager.t) : t :=
  {| connections := JSArray []; configManager := cfg; connectionCounter := 0;
     clients := 0; actions := [] |}.

Definition with_connections (r : registry) (m : t) : t :=
  {| connections := r; configManager := configManager m;
     connectionCounter := connectionCounter m;
     clients := clients m; actions := actions m |}.

Definition with_action (a : transport_action) (m : t) : t :=
  {| connections := connections m; configManager := configManager m;
     connectionCounter := connectionCounter m;
     clients := clients m; actions := actions m ++ [a] |}.

(** [conn_${Date.now()}_${this.connectionCounter++}] *)
Definition generateConnectionId (now : Z) (m : t) : t * string :=
  ({| connections := connections m; configManager := configManager m;
      connectionCounter := connectionCounter m + 1;
      clients := clients m; actions := actions m |},
   "conn_" +:+ pretty now +:+ "_" +:+ pretty (connectionCounter m)).

(** [new Client()] *)
Definition new_Client (m : t) : t * nat :=
  ({| connections := connections m; configManager := configManager m;
      connectionCounter := connectionCounter m;
      clients := S (clients m); actions := actions m |},
   clients m).

(** The loop shared by [connect] and [getConnection]: the first session
    of the target that has its [connected] flag set. *)
Fixpoint scan (target : string) (l : list SSHConnection) : option SSHConnection :=
  match l with
  | [] => None
  | conn :: rest =>
      if bool_decide (server_name conn = target) && connected conn
      then Some conn
      else scan target rest
  end.

Definition getConnection (target : string) (m : t) : option SSHConnection :=
  scan target (values (connections m)).

(** Answers of the environment to one [connect] call. *)
Inductive read_result : Type :=
| ReadOk (content : string)
| ReadFails (diag : string).

Inductive transport_answer : Type :=
| Ready
| ErrorEvent (diag : string)
| ConnectThrew (diag : string)
| NoEvent.

Record connect_env : Type := {
  id_clock : Z;            (* Date.now() in generateConnectionId *)
  date_clock : Z;          (* new Date() *)
  key_file : read_result;  (* readFileSync(config.key_path) *)
  answer : transport_answer
}.

(** The authentication part of [connectConfig]: the key file when
    [key_path] is truthy, else the password when it is truthy. *)
Definition connectConfig_of (e : connect_env) (config : SSHServerConfig)
  : completion ConnectConfig :=
  let base pk pw :=
    {| cc_host := host config; cc_port := port config;
       cc_username := username config; cc_readyTimeout := 30000;
       cc_privateKey := pk; cc_password := pw |} in
  if truthy_opt (key_path config) then
    match key_file e with
    | ReadOk content => Returned (base (Some content) None)
    | ReadFails d => Threw (FsError d)
    end
  else if truthy_opt (password config) then
    Returned (base None (password config))
  else Returned (base None None).

(** The listener of ["ready"]: the flag is set, the session is
    registered, the promise is resolved.  When [set] raises, the
    exception leaves the listener before [resolve] is reached. *)
Definition on_ready (connection : SSHConnection) (m : t) : t * outcome SSHConnection :=
  let connection1 :=
    {| id := id connection; server_name := server_name connection;
       client := client connection; connected := true;
       connected_at := connected_at connection |} in
  match set (id connection1) connection1 (connections m) with
  | Returned r => (with_connections r m, Resolved connection1)
  | Threw err => (with_action (ListenerThrew (client connection) err) m, Pending)
  end.

(** The executor of the promise [connect] returns when no session can
    be reused. *)
Definition establish (e : connect_env) (nm : string) (config : SSHServerConfig)
    (m : t) : t * outcome SSHConnection :=
  let '(m1, cl) := new_Client m in
  let '(m2, connectionId) := generateConnectionId (id_clock e) m1 in
  let connection :=
    {| id := connectionId; server_name := nm; client := cl;
       connected := false; connected_at := date_clock e |} in
  match connectConfig_of e config with
  | Threw err => (m2, Rejected err)
  | Returned connectConfig =>
      match answer e with
      | ConnectThrew d => (m2, Rejected (TransportError d))
      | Ready => on_ready connection (with_action (ClientConnect cl connectConfig) m2)
      | ErrorEvent d =>
          (with_action (ClientConnect cl connectConfig) m2, Rejected (TransportError d))
      | NoEvent => (with_action (ClientConnect cl connectConfig) m2, Pending)
      end
  end.

Definition connect (e : connect_env) (target : option string) (m : t)
  : t * outcome SSHConnection :=
  match or_else target (getDefaultServer (configManager m)) with
  | None => (m, Rejected NoTargetError)
  | Some nm =>
      if negb (truthy nm) then (m, Rejected NoTargetError)
      else
        match getServer nm (configManager m) with
        | None => (m, Rejected (UnknownServerError nm))
        | Some config =>
            match scan nm (values (connections m)) with
            | Some conn => (m, Resolved conn)
            | None => establish e nm config m
            end
        end
  end.

(** [this.connections.entries()]: the pairs of key and session (for an
    array, of index and element). *)
Definition entries (r : registry) : list (string * SSHConnection) :=
  match r with
  | JSArray l => imap (fun i conn => (pretty (Z.of_nat i), conn)) l
  | JSMap m => m
  end.

(** The loop of the bulk [disconnect].  The iterator of a [Map] is
    live; the body deletes only the entry being visited and the keys of
    a [Map] are distinct, so the entries still to visit are those that
    followed it when the loop started. *)
Fixpoint disconnect_loop (todo : list (string * SSHConnection)) (m : t)
    (count : nat) : t * completion nat :=
  match todo with
  | [] => (m, Returned count)
  | (cid, conn) :: rest =>
      let m1 := with_action (ClientEnd (client conn)) m in
      match delete cid (connections m1) with
      | Threw err => (m1, Threw err)
      | Returned r => disconnect_loop rest (with_connections r m1) (S count)
      end
  end.

(** [disconnect(connection_id?)]; the completion carries the field
    [disconnected] of the object returned. *)
Definition disconnect (connection_id : option string) (m : t) : t * completion nat :=
  match connection_id with
  | Some cid =>
      if truthy cid then
        match get cid (connections m) with
        | Threw err => (m, Threw err)
        | Returned (Some conn) =>
            let m1 := with_action (ClientEnd (client conn)) m in
            match delete cid (connections m1) with
            | Threw err => (m1, Threw err)
            | Returned r => (with_connections r m1, Returned 1%nat)
            end
        | Returned None => (m, Returned 0%nat)
        end
      else disconnect_loop (entries (connections m)) m 0%nat
  | None => disconnect_loop (entries (connections m)) m 0%nat
  end.

Record StatusEntry : Type := {
  st_id : string;
  st_server_name : string;
  st_connected : bool;
  st_connected_at : Z
}.

Record Status : Type := {
  status_connections : list StatusEntry;
  total : option nat               (* [None] is [undefined] *)
}.

Definition getStatus (m : t) : Status :=
  {| status_connections :=
       map (fun conn => {| st_id := id conn; st_server_name := server_name conn;
                           st_connected := connected conn;
                           st_connected_at := connected_at conn |})
           (values (connections m));
     total := size (connections m) |}.

(** *** executeCommand *)

(** What the transport delivers to the callbacks of one [exec]
    request. *)
Inductive exec_event : Type :=
| ExecCallback (err : option string)  (* the callback of [client.exec] *)
| StdoutData (data : string)
| StderrData (data : string)
| StreamClose (code : option Z).

(** Answers of the environment to one [executeCommand] call.  Times are
    clock readings in milliseconds.  [events] lists, in delivery order,
    everything the transport will deliver for the request, each with
    the time of its delivery.  [timer_first] says which callback runs
    first when the timer and an event are due at the same instant. *)
Record exec_env : Type := {
  start_clock : Z;                      (* Date.now() at the call *)
  conn_env : connect_env;
  armed_clock : Z;                      (* the clock when setTimeout is called *)
  exec_throws : option string;          (* client.exec raising at once *)
  events : list (Z * exec_event);
  timer_first : bool
}.

(** [setTimeout] of the runtime: a delay outside [1 .. 2^31-1] is
    replaced by 1. *)
Definition TIMEOUT_MAX : Z := 2147483647.

Definition timer_delay (ms : Z) : Z :=
  if (1 <=? ms) && (ms <=? TIMEOUT_MAX) then ms else 1.

(** The variables of the closure of one call: the accumulators, the
    timer ([timer] is the deadline of the handle, [None] for [null];
    [timer_live] says whether it is still scheduled), whether the
    listeners of the stream are installed, and the promise. *)
Record pending_exec : Type := {
  acc_stdout : string;
  acc_stderr : string;
  acc_exit_code : option Z;
  timer : option Z;
  timer_live : bool;
  listening : bool;
  promise : outcome CommandResult
}.

Definition resolve (v : CommandResult) (st : pending_exec) : pending_exec :=
  match promise st with
  | Pending =>
      {| acc_stdout := acc_stdout st; acc_stderr := acc_stderr st;
         acc_exit_code := acc_exit_code st; timer := timer st;
         timer_live := timer_live st; listening := listening st;
         promise := Resolved v |}
  | _ => st
  end.

Definition reject (err : error) (st : pending_exec) : pending_exec :=
  match promise st with
  | Pending =>
      {| acc_stdout := acc_stdout st; acc_stderr := acc_stderr st;
         acc_exit_code := acc_exit_code st; timer := timer st;
         timer_live := timer_live st; listening := listening st;
         promise := Rejected err |}
  | _ => st
  end.

(** [if (timer) clearTimeout(timer)] *)
Definition cleanup (st : pending_exec) : pending_exec :=
  match timer st with
  | Some _ =>
      {| acc_stdout := acc_stdout st; acc_stderr := acc_stderr st;
         acc_exit_code := acc_exit_code st; timer := timer st;
         timer_live := false; listening := listening st;
         promise := promise st |}
  | None => st
  end.

(** The callback of the timer. *)
Definition on_timer (timeout : Z) (st : pending_exec) : pending_exec :=
  reject (CommandTimeoutError timeout) (cleanup st).

(** The callbacks of the request, run at clock reading [now]. *)
Definition on_event (startTime now : Z) (ev : exec_event) (st : pending_exec)
  : pending_exec :=
  match ev with
  | ExecCallback (Some d) => reject (TransportError d) (cleanup st)
  | ExecCallback None =>
      {| acc_stdout := acc_stdout st; acc_stderr := acc_stderr st;
         acc_exit_code := acc_exit_code st; timer := timer st;
         timer_live := timer_live st; listening := true;
         promise := promise st |}
  | StdoutData data =>
      if listening st then
        {| acc_stdout := acc_stdout st +:+ data; acc_stderr := acc_stderr st;
           acc_exit_code := acc_exit_code st; timer := timer st;
           timer_live := timer_live st; listening := listening st;
           promise := promise st |}
      else st
  | StderrData data =>
      if listening st then
        {| acc_stdout := acc_stdout st; acc_stderr := acc_stderr st +:+ data;
           acc_exit_code := acc_exit_code st; timer := timer st;
           timer_live := timer_live st; listening := listening st;
           promise := promise st |}
      else st
  | StreamClose code =>
      if listening st then
        let st1 := cleanup st in
        let st2 :=
          {| acc_stdout := acc_stdout st1; acc_stderr := acc_stderr st1;
             acc_exit_code := code; timer := timer st1;
             timer_live := timer_live st1; listening := listening st1;
             promise := promise st1 |} in
        resolve {| stdout := acc_stdout st2; stderr := acc_stderr st2;
                   exit_code := acc_exit_code st2;
                   duration := now - startTime |} st2
      else st
  end.

(** The timer runs before the event delivered at [now] when it is
    still scheduled and its deadline has passed. *)
Definition timer_due (tie : bool) (now : Z) (st : pending_exec) : bool :=
  match timer st with
  | Some deadline =>
      timer_live st && (if tie then deadline <=? now else deadline <? now)
  | None => false
  end.

Definition fire_due (tie : bool) (timeout now : Z) (st : pending_exec) : pending_exec :=
  if timer_due tie now st then on_timer timeout st else st.

Fixpoint deliver (tie : bool) (timeout startTime : Z)
    (evs : list (Z * exec_event)) (st : pending_exec) : pending_exec :=
  match evs with
  | [] => st
  | (now, ev) :: rest =>
      deliver tie timeout startTime rest
        (on_event startTime now ev (fire_due tie timeout now st))
  end.

(** Once the transport has nothing more to deliver, a timer that is
    still scheduled runs when its deadline comes. *)
Definition expire (timeout : Z) (st : pending_exec) : pending_exec :=
  match timer st with
  | Some _ => if timer_live st then on_timer timeout st else st
  | None => st
  end.

(** The closure when the executor of the promise starts: the timer is
    armed when [timeout > 0]. *)
Definition arm (armed timeout : Z) : pending_exec :=
  {| acc_stdout := ""; acc_stderr := ""; acc_exit_code := None;
     timer := if 0 <? timeout then Some (armed + timer_delay (timeout * 1000))
              else None;
     timer_live := 0 <? timeout;
     listening := false;
     promise := Pending |}.

(** The executor of the promise of [executeCommand], followed to the
    end of the deliveries: the object, and the closure as it is left. *)
Definition run_exec (e : exec_env) (connection : SSHConnection) (command : string)
    (timeout : Z) (m : t) : t * pending_exec :=
  let st0 := arm (armed_clock e) timeout in
  match exec_throws e with
  | Some d => (m, expire timeout (reject (TransportError d) st0))
  | None =>
      (with_action (ClientExec (client connection) command) m,
       expire timeout
         (deliver (timer_first e) timeout (start_clock e) (events e) st0))
  end.

(** [executeCommand(server_name, command, timeout = 30)], with the
    closure of the call when the session was obtained. *)
Definition executeCommand_closure (e : exec_env) (target command : string)
    (timeout : option Z) (m : t) : t * outcome pending_exec :=
  let timeout := default 30 timeout in
  match connect (conn_env e) (Some target) m with
  | (m1, Resolved connection) =>
      let '(m2, st) := run_exec e connection command timeout m1 in
      (m2, Resolved st)
  | (m1, Rejected err) => (m1, Rejected err)
  | (m1, Pending) => (m1, Pending)
  end.

Definition executeCommand (e : exec_env) (target command : string)
    (timeout : option Z) (m : t) : t * outcome CommandResult :=
  match executeCommand_closure e target command timeout m with
  | (m1, Resolved st) => (m1, promise st)
  | (m1, Rejected err) => (m1, Rejected err)
  | (m1, Pending) => (m1, Pending)
  end.

(** *** Vocabulary for statements about the deliveries *)

(** The deliveries that settle the promise: the callback of [exec]
    with an error, and the close of the stream. *)
Definition settling (ev : exec_event) : bool :=
  match ev with
  | ExecCallback (Some _) | StreamClose _ => true
  | _ => false
  end.

(** No settling delivery happens up to [limit]. *)
Definition silent_until (limit : Z) (evs : list (Z * exec_event)) : bool :=
  forallb (fun p => negb (settling (snd p)) || (limit <? fst p)) evs.

Definition is_data (ev : exec_event) : bool :=
  match ev with
  | StdoutData _ | StderrData _ => true
  | _ => false
  end.

Definition all_data (evs : list (Z * exec_event)) : bool :=
  forallb (fun p => is_data (snd p)) evs.

Definition all_before (limit : Z) (evs : list (Z * exec_event)) : bool :=
  forallb (fun p => fst p <? limit) evs.

(** The chunks of each stream, in arrival order. *)
Fixpoint stdout_of (evs : list (Z * exec_event)) : string :=
  match evs with
  | [] => ""
  | (_, StdoutData data) :: rest => data +:+ stdout_of rest
  | _ :: rest => stdout_of rest
  end.

Fixpoint stderr_of (evs : list (Z * exec_event)) : string :=
  match evs with
  | [] => ""
  | (_, StderrData data) :: rest => data +:+ stderr_of rest
  | _ :: rest => stderr_of rest
  end.

(** The closure while the timer decides: pending with the timer
    scheduled, or already rejected by it. *)
Definition awaiting (T deadline : Z) (st : pending_exec) : Prop :=
  timer st = Some deadline ∧
  ((promise st = Pending ∧ timer_live st = true) ∨
   promise st = Rejected (CommandTimeoutError T)).

(** The closure of a call made without a timer. *)
Definition untimed (st : pending_exec) : Prop :=
  timer st = None ∧ ∀ T, promise st ≠ Rejected (CommandTimeoutError T).


End SSHConnectionManager.

(** ** Inputs used to exercise the statements *)

Module Examples.

Import ServerConfigManager SSHConnectionManager.

(** [add_server({name: "a", host: "1.2.3.4", username: "root", password: "p"})] *)
Definition input_a : AddServerInput :=
  {| in_name := "a"; in_host := "1.2.3.4"; in_port := None;
     in_username := "root"; in_password := Some "p"; in_key_path := None;
     in_description := None; in_proxy_command := None |}.

Definition input_b : AddServerInput :=
  {| in_name := "b"; in_host := "example.org"; in_port := Some 2222;
     in_username := "deploy"; in_password := None; in_key_path := Some "/k/id";
     in_description := Some "build host"; in_proxy_command := None |}.

(** The store after adding "a" and "b" and making "a" the default. *)
Definition store_ab : ServerConfigManager.t :=
  run_ops [add_server input_a WriteOk; add_server input_b WriteOk;
           set_default "a" WriteOk] empty_store.

(** The store with "a" and "b" and no default. *)
Definition store_no_default : ServerConfigManager.t :=
  run_ops [add_server input_a WriteOk; add_server input_b WriteOk] empty_store.

Definition env_ready : connect_env :=
  {| id_clock := 1000; date_clock := 1001; key_file := ReadOk "KEY";
     answer := Ready |}.

Definition env_refused : connect_env :=
  {| id_clock := 1000; date_clock := 1001; key_file := ReadOk "KEY";
     answer := ErrorEvent "ECONNREFUSED" |}.

(** A manager of the compiled unit after one successful [connect("a")]. *)
Definition manager_a : SSHConnectionManager.t :=
  fst (connect env_ready (Some "a") (new_compiled store_ab)).

(** The session that call registers. *)
Definition session_a : SSHConnection :=
  {| id := "conn_1000_0"; server_name := "a"; client := 0%nat;
     connected := true; connected_at := 1001 |}.

Definition connectConfig_a : ConnectConfig :=
  {| cc_host := "1.2.3.4"; cc_port := 22; cc_username := "root";
     cc_readyTimeout := 30000; cc_privateKey := None;
     cc_password := Some "p" |}.

(** A call that starts at 0, gets its session after 20 s, and whose
    command closes 15 s later with code 0 after printing "hi". *)
Definition env_slow_connect : exec_env :=
  {| start_clock := 0; conn_env := env_ready; armed_clock := 20000;
     exec_throws := None;
     events := [(20010, ExecCallback None); (21000, StdoutData "hi");
                (35000, StreamClose (Some 0))];
     timer_first := true |}.


(** A call whose command prints "hi" and never closes. *)
Definition env_hangs : exec_env :=
  {| start_clock := 0; conn_env := env_ready; armed_clock := 5;
     exec_throws := None;
     events := [(10, ExecCallback None); (500, StdoutData "hi")];
     timer_first := false |}.

End Examples.

(** ** server-config.ts: loading and listing *)

Module ServerConfigQueries.

Import ServerConfigManager.

(** What [loadConfig] finds at [configPath]: no file, a file that
    cannot be read, a file that is not JSON, or a document. *)
Inductive file_state : Type :=
| NoFile
| Unreadable (diag : string)
| Malformed (diag : string)
| Document (d : ServerConfigData).

(** [loadConfig]: the document when there is one; every failure is
    logged and gives [{ servers: {} }]. *)
Definition loadConfig (f : file_state) : ServerConfigData :=
  match f with
  | Document d => d
  | NoFile | Unreadable _ | Malformed _ => empty_config
  end.

(** The file a store leaves behind, as the next [loadConfig] reads it. *)
Definition file_of (s : ServerConfigManager.t) : file_state :=
  match disk s with
  | Some d => Document d
  | None => NoFile
  end.

(** [new ServerConfigManager(configPath)] on the file of [s]. *)
Definition reopen (s : ServerConfigManager.t) : ServerConfigManager.t :=
  {| config := loadConfig (file_of s); disk := disk s |}.

(** [String.prototype.includes], by [startsWith] at each position. *)
Fixpoint startsWith (s p : string) : bool :=
  match p with
  | EmptyString => true
  | String c p' =>
      match s with
      | EmptyString => false
      | String d s' => bool_decide (c = d) && startsWith s' p'
      end
  end.

Fixpoint includes (s p : string) : bool :=
  startsWith s p ||
  match s with
  | EmptyString => false
  | String _ s' => includes s' p
  end.

(** An element of the array [listServers] returns: the entry, spread,
    and [is_default]. *)
Record ListedServer : Type := {
  entry : SSHServerConfig;
  is_default : bool
}.

(** [{ ...s, is_default: s.name === this.config.default_server }] *)
Definition listed (s : ServerConfigManager.t) (c : SSHServerConfig) : ListedServer :=
  {| entry := c;
     is_default := bool_decide (default_server (config s) = Some (name c)) |}.

Section ListServers.

(** [String.prototype.toLowerCase] of the runtime. *)
Variable toLowerCase : string → string.

(** The predicate of the filter. *)
Definition matches (lowerKeyword : string) (c : SSHServerConfig) : bool :=
  includes (toLowerCase (name c)) lowerKeyword ||
  includes (toLowerCase (host c)) lowerKeyword ||
  match description c with
  | Some d => truthy d && includes (toLowerCase d) lowerKeyword
  | None => false
  end.

(** [listServers(keyword?, includeSystemInfo = true)].  The second
    argument is not used by the body.  [Object.values] gives the
    entries in the order of the keys of the object, which the finite
    map does not keep: the list is the one of the source up to the
    order of its elements. *)
Definition listServers (keyword : option string) (includeSystemInfo : bool)
    (s : ServerConfigManager.t) : list ListedServer :=
  let all := (map_to_list (servers (config s))).*2 in
  let kept :=
    match keyword with
    | Some kw =>
        if truthy kw
        then filter (fun c => matches (toLowerCase kw) c = true) all
        else all
    | None => all
    end in
  listed s <$> kept.

End ListServers.

(** Every entry is stored under its own name. *)
Definition names_ok (s : ServerConfigManager.t) : Prop :=
  ∀ k c, servers (config s) !! k = Some c → name c = k.

(** What a new object would load is what this one holds. *)
Definition synced (s : ServerConfigManager.t) : Prop :=
  loadConfig (file_of s) = config s.

End ServerConfigQueries.

(** ** ssh-connection.ts: sequences of calls *)

Module Calls.

Import ServerConfigManager SSHConnectionManager.

(** The calls the tools make on the two objects, with the answers of
    the environment to each. *)
Inductive call : Type :=
| CallConnect (e : connect_env) (target : option string)
| CallDisconnect (connection_id : option string)
| CallExecute (e : exec_env) (target command : string) (timeout : option Z)
| CallStore (o : store_op).

Definition with_configManager (cfg : ServerConfigManager.t)
    (m : SSHConnectionManager.t) : SSHConnectionManager.t :=
  {| connections := connections m; configManager := cfg;
     connectionCounter := connectionCounter m;
     clients := clients m; actions := actions m |}.

Definition run_call (c : call) (m : SSHConnectionManager.t) : SSHConnectionManager.t :=
  match c with
  | CallConnect e target => fst (connect e target m)
  | CallDisconnect connection_id => fst (disconnect connection_id m)
  | CallExecute e target command timeout =>
      fst (executeCommand e target command timeout m)
  | CallStore o => with_configManager (fst (run_op o (configManager m))) m
  end.

Definition run_calls (cs : list call) (m : SSHConnectionManager.t)
  : SSHConnectionManager.t :=
  fold_left (fun acc c => run_call c acc) cs m.

(** The identifier [generateConnectionId] builds from a clock reading
    and a value of the counter. *)
Definition connection_id_of (now counter : Z) : string :=
  "conn_" +:+ pretty now +:+ "_" +:+ pretty counter.

(** No character of the string is an underscore. *)
Fixpoint plain (s : string) : bool :=
  match s with
  | EmptyString => true
  | String c s' => negb (bool_decide (String c EmptyString = "_")) && plain s'
  end.

(** The registry of an object of the compiled unit, as the calls keep
    it: a [Map] with distinct keys; each session stored under its own
    id, connected, with an id made from an earlier value of the counter
    and a client created earlier; no two sessions for the same target
    and no two sessions on the same client. *)
Record registry_ok (m : SSHConnectionManager.t) : Prop := {
  ok_map : ∃ r, connections m = JSMap r ∧ NoDup (map fst r);
  ok_entry : ∀ k c, (k, c) ∈ entries (connections m) →
    id c = k ∧ connected c = true ∧ (client c < clients m)%nat ∧
    ∃ now n, k = connection_id_of now n ∧ n < connectionCounter m;
  ok_target : ∀ k1 c1 k2 c2,
    (k1, c1) ∈ entries (connections m) → (k2, c2) ∈ entries (connections m) →
    server_name c1 = server_name c2 → k1 = k2;
  ok_client : ∀ k1 c1 k2 c2,
    (k1, c1) ∈ entries (connections m) → (k2, c2) ∈ entries (connections m) →
    client c1 = client c2 → k1 = k2
}.

(** The number of [ClientConnect], [ClientExec] and [ClientEnd] in a
    list of actions. *)
Definition is_connect (a : transport_action) : bool :=
  match a with ClientConnect _ _ => true | _ => false end.
Definition is_exec (a : transport_action) : bool :=
  match a with ClientExec _ _ => true | _ => false end.
Definition is_end (a : transport_action) : bool :=
  match a with ClientEnd _ => true | _ => false end.

Definition count (f : transport_action → bool) (l : list transport_action) : nat :=
  length (List.filter f l).

(** The deliveries the listeners of the stream receive: those that
    follow the first callback of [exec] without an error. *)
Fixpoint heard (listening : bool) (evs : list (Z * exec_event))
  : list (Z * exec_event) :=
  match evs with
  | [] => []
  | (now, ExecCallback None) :: rest => heard true rest
  | (now, ev) :: rest =>
      if listening then (now, ev) :: heard listening rest
      else heard listening rest
  end.

End Calls.

(** ** More inputs *)

Module MoreExamples.

Import ServerConfigManager SSHConnectionManager ServerConfigQueries Calls Examples.

(** Lower case on the letters A to Z, other characters unchanged. *)
Definition lower_ascii (c : Ascii.ascii) : Ascii.ascii :=
  let n := Ascii.nat_of_ascii c in
  if (Nat.leb 65 n && Nat.leb n 90)%bool then Ascii.ascii_of_nat (n + 32)%nat
  else c.

Fixpoint lower (s : string) : string :=
  match s with
  | EmptyString => EmptyString
  | String c s' => String (lower_ascii c) (lower s')
  end.

(** The store with "a" only. *)
Definition store_a : ServerConfigManager.t :=
  run_ops [add_server input_a WriteOk] empty_store.

Definition input_gateway : AddServerInput :=
  {| in_name := "Gateway"; in_host := "10.0.0.1"; in_port := Some 0;
     in_username := "ops"; in_password := Some "pw"; in_key_path := Some "/k/gw";
     in_description := None; in_proxy_command := Some "nc %h %p" |}.

Definition env_ready_later : connect_env :=
  {| id_clock := 1000; date_clock := 2002; key_file := ReadOk "KEY";
     answer := Ready |}.

Definition env_no_key : connect_env :=
  {| id_clock := 3000; date_clock := 3001; key_file := ReadFails "ENOENT";
     answer := Ready |}.

(** connect("a"), then connect("b") in the same millisecond. *)
Definition manager_ab : SSHConnectionManager.t :=
  run_calls [CallConnect env_ready (Some "a");
             CallConnect env_ready_later (Some "b")] (new_compiled store_ab).

Definition session_b : SSHConnection :=
  {| id := "conn_1000_1"; server_name := "b"; client := 1%nat;
     connected := true; connected_at := 2002 |}.

(** The session a third connect, for "a", registers. *)
Definition session_a_again : SSHConnection :=
  {| id := "conn_1000_2"; server_name := "a"; client := 2%nat;
     connected := true; connected_at := 1001 |}.

Definition connectConfig_b : ConnectConfig :=
  {| cc_host := "example.org"; cc_port := 2222; cc_username := "deploy";
     cc_readyTimeout := 30000; cc_privateKey := Some "KEY";
     cc_password := None |}.


(** A call whose command writes on both streams and closes, without a
    code, after two and a half hours. *)
Definition env_long_run : exec_env :=
  {| start_clock := 0; conn_env := env_ready; armed_clock := 5;
     exec_throws := None;
     events := [(10, ExecCallback None); (20, StdoutData "a");
                (25, StderrData "e"); (30, StdoutData "b");
                (9000000, StreamClose None); (9000001, StdoutData "late")];
     timer_first := false |}.

Definition result_long_run : CommandResult :=
  {| stdout := "ab"; stderr := "e"; exit_code := None; duration := 9000000 |}.

End MoreExamples.

(** ** Properties of the credential store *)

Section Store.

Import ServerConfigManager.

Lemma saveConfig_config w s : config (fst (saveConfig w s)) = config s.
Proof. by destruct w. Qed.

Lemma saveConfig_fails d s : saveConfig (WriteFails d) s = (s, Threw (FsError d)).
Proof. done. Qed.

(** The three operations, unfolded on each side of their guard. *)
Lemma addServer_present w i s :
  is_Some (getServer (in_name i) s) →
  addServer w i s = (s, Threw (DuplicateServerError (in_name i))).
Proof. unfold getServer, addServer. by intros [c ->]. Qed.

Lemma addServer_config w i s :
  getServer (in_name i) s = None →
  config (fst (addServer w i s)) =
    {| default_server := default_server (config s);
       servers := <[in_name i := make_server i]> (servers (config s)) |}.
Proof. unfold getServer, addServer. intros ->. by destruct w. Qed.

Lemma deleteServer_absent w nm s :
  getServer nm s = None → deleteServer w nm s = (s, Threw (ServerNotFoundError nm)).
Proof. unfold getServer, deleteServer. by intros ->. Qed.

Lemma deleteServer_config w nm s :
  is_Some (getServer nm s) →
  config (fst (deleteServer w nm s)) =
    {| default_server :=
         if decide (default_server (config s) = Some nm) then None
         else default_server (config s);
       servers := delete nm (servers (config s)) |}.
Proof. unfold getServer, deleteServer. intros [c ->]. by destruct w. Qed.

Lemma setDefaultServer_absent w nm s :
  getServer nm s = None →
  setDefaultServer w nm s = (s, Threw (ServerNotFoundError nm)).
Proof. unfold getServer, setDefaultServer. by intros ->. Qed.

Lemma setDefaultServer_config w nm s :
  is_Some (getServer nm s) →
  config (fst (setDefaultServer w nm s)) =
    {| default_server := Some nm; servers := servers (config s) |}.
Proof. unfold getServer, setDefaultServer. intros [c ->]. by destruct w. Qed.

Lemma getServer_cases nm s : getServer nm s = None ∨ is_Some (getServer nm s).
Proof. destruct (getServer nm s) eqn:E; [right; eauto | by left]. Qed.

(** Each operation preserves [default_ok], whatever the write does. *)
Lemma run_op_default_ok o s : default_ok s → default_ok (fst (run_op o s)).
Proof.
  intros Hok. destruct o as [i w | nm w | nm w]; simpl.
  - destruct (addServer w i s) as [s' c] eqn:E. simpl.
    destruct (getServer_cases (in_name i) s) as [Hn | Hp].
    + pose proof (addServer_config w i s Hn) as Hc. rewrite E in Hc. simpl in Hc.
      intros d Hd. rewrite Hc in *. simpl in *.
      destruct (decide (in_name i = d)) as [-> | Hne].
      * rewrite lookup_insert_eq. eauto.
      * rewrite lookup_insert_ne by done. by apply Hok.
    + rewrite (addServer_present w i s Hp) in E. by inversion E; subst.
  - destruct (deleteServer w nm s) as [s' c] eqn:E. simpl.
    destruct (getServer_cases nm s) as [Hn | Hp].
    + rewrite (deleteServer_absent w nm s Hn) in E. by inversion E; subst.
    + pose proof (deleteServer_config w nm s Hp) as Hc. rewrite E in Hc. simpl in Hc.
      intros d Hd. rewrite Hc in *. simpl in *.
      destruct (decide (default_server (config s) = Some nm)) as [Heq | Hne]; [done |].
      rewrite lookup_delete_ne by congruence. by apply Hok.
  - destruct (setDefaultServer w nm s) as [s' c] eqn:E. simpl.
    destruct (getServer_cases nm s) as [Hn | Hp].
    + rewrite (setDefaultServer_absent w nm s Hn) in E. by inversion E; subst.
    + pose proof (setDefaultServer_config w nm s Hp) as Hc. rewrite E in Hc. simpl in Hc.
      intros d Hd. rewrite Hc in *. simpl in *. by simplify_eq.
Qed.

Lemma run_ops_default_ok ops s : default_ok s → default_ok (run_ops ops s).
Proof.
  revert s. induction ops as [| o ops IH]; intros s Hok; [done |].
  apply IH. by apply run_op_default_ok.
Qed.

Lemma empty_store_default_ok : default_ok empty_store.
Proof. by intros d Hd. Qed.


(** C8. add_server with a name the store already holds fails with
    DuplicateServerError and returns the store it was given: the entries,
    the existing entry among them, the default pointer and the document
    on disk are unchanged. *)
Theorem duplicate_add_rejected (w : write_result) (i : AddServerInput)
    (s : ServerConfigManager.t) :
  is_Some (getServer (in_name i) s) →
  addServer w i s = (s, Threw (DuplicateServerError (in_name i))) ∧
  getServer (in_name i) (fst (addServer w i s)) = getServer (in_name i) s ∧
  config (fst (addServer w i s)) = config s.
Proof.
  intros Hp. by rewrite (addServer_present w i s Hp).
Qed.

(** C9. When the write of the document fails, no mutating operation
    returns its success value: add_server, delete_server and set_default
    whose guard passes raise the failure of the write, and an operation
    whose guard fails raises the error of the guard. *)
Theorem failed_save_is_raised (d : string) (o : store_op) (i : AddServerInput)
    (nm : string) (s : ServerConfigManager.t) :
  (write_of o = WriteFails d → ∃ err, snd (run_op o s) = Threw err) ∧
  (getServer (in_name i) s = None →
     snd (addServer (WriteFails d) i s) = Threw (FsError d)) ∧
  (is_Some (getServer nm s) →
     snd (deleteServer (WriteFails d) nm s) = Threw (FsError d) ∧
     snd (setDefaultServer (WriteFails d) nm s) = Threw (FsError d)).
Proof.
  split; [| split].
  - destruct o as [i' w | nm' w | nm' w]; simpl; intros ->.
    + unfold addServer. destruct (servers (config s) !! in_name i'); simpl; eauto.
    + unfold deleteServer. destruct (servers (config s) !! nm'); simpl; eauto.
    + unfold setDefaultServer. destruct (servers (config s) !! nm'); simpl; eauto.
  - unfold getServer, addServer. by intros ->.
  - unfold getServer, deleteServer, setDefaultServer. by intros [c ->].
Qed.

(** C10. The change is made in memory before the write is attempted and
    is not undone when the write fails: after a failed add_server the
    new entry is what getServer returns, after a failed delete_server
    the entry is gone, after a failed set_default the pointer is moved;
    each time the caller gets the failure of the write and the document
    on disk is the old one. *)
Theorem failed_save_keeps_change (d : string) (i : AddServerInput) (nm : string)
    (s : ServerConfigManager.t) :
  (getServer (in_name i) s = None →
     snd (addServer (WriteFails d) i s) = Threw (FsError d) ∧
     getServer (in_name i) (fst (addServer (WriteFails d) i s)) = Some (make_server i) ∧
     disk (fst (addServer (WriteFails d) i s)) = disk s) ∧
  (is_Some (getServer nm s) →
     snd (deleteServer (WriteFails d) nm s) = Threw (FsError d) ∧
     getServer nm (fst (deleteServer (WriteFails d) nm s)) = None ∧
     disk (fst (deleteServer (WriteFails d) nm s)) = disk s) ∧
  (is_Some (getServer nm s) →
     snd (setDefaultServer (WriteFails d) nm s) = Threw (FsError d) ∧
     getDefaultServer (fst (setDefaultServer (WriteFails d) nm s)) = Some nm ∧
     disk (fst (setDefaultServer (WriteFails d) nm s)) = disk s).
Proof.
  split; [| split].
  - unfold getServer, addServer. intros ->. simpl.
    by rewrite lookup_insert_eq.
  - unfold getServer, deleteServer. intros [c ->]. simpl.
    by rewrite lookup_delete_eq.
  - unfold getServer, getDefaultServer, setDefaultServer. by intros [c ->].
Qed.

End Store.

(** ** Properties of the connection manager: sessions *)

Section Sessions.

Import ServerConfigManager SSHConnectionManager.

Lemma scan_Some target l c :
  scan target l = Some c → c ∈ l ∧ server_name c = target ∧ connected c = true.
Proof.
  induction l as [| x l IH]; simpl; [done |].
  destruct (bool_decide (server_name x = target) && connected x) eqn:E.
  - intros [= ->]. apply andb_prop in E as [E1 E2].
    apply bool_decide_eq_true in E1. split; [left | done].
  - intros H. destruct (IH H) as (? & ? & ?). split; [by right | done].
Qed.

Lemma scan_None target l x :
  scan target l = None → x ∈ l → server_name x = target → connected x = false.
Proof.
  induction l as [| y l IH]; simpl; [by intros _ ?%elem_of_nil |].
  destruct (bool_decide (server_name y = target) && connected y) eqn:E; [done |].
  intros Hs [-> | Hin]%elem_of_cons Hn; [| by apply IH].
  rewrite bool_decide_eq_true_2 in E by done. simpl in E. done.
Qed.

(** A registered, connected session of the target is found by the scan. *)
Lemma scan_finds target l x :
  x ∈ l → server_name x = target → connected x = true →
  ∃ c, scan target l = Some c.
Proof.
  intros Hin Hn Hc. destruct (scan target l) as [c |] eqn:E; [eauto |].
  rewrite (scan_None _ _ _ E Hin Hn) in Hc. done.
Qed.

(** Registering a connected session of a target that had none makes it
    the one the scan returns. *)
Lemma scan_Map_set target k c m :
  scan target (map snd m) = None →
  server_name c = target → connected c = true →
  scan target (map snd (Map_set k c m)) = Some c.
Proof.
  intros Hs Hn Hc. induction m as [| [k' v'] m IH]; simpl in *.
  - by rewrite bool_decide_eq_true_2, Hc.
  - destruct (bool_decide (server_name v' = target) && connected v') eqn:E; [done |].
    destruct (decide (k' = k)) as [-> | Hne]; simpl.
    + by rewrite bool_decide_eq_true_2, Hc.
    + rewrite E. by apply IH.
Qed.

Lemma establish_Resolved e nm config m m1 c :
  establish e nm config m = (m1, Resolved c) →
  scan nm (values (connections m)) = None →
  configManager m1 = configManager m ∧
  server_name c = nm ∧ connected c = true ∧
  scan nm (values (connections m1)) = Some c.
Proof.
  unfold establish. simpl.
  destruct (connectConfig_of e config) as [cfg | err]; [| done].
  destruct (answer e); try done.
  unfold on_ready. simpl.
  destruct (connections m) as [l | r] eqn:Er; simpl; [done |].
  intros [= <- <-] Hs. simpl. repeat split.
  by apply scan_Map_set.
Qed.


(** C1. When connect(target) resolves with a session, that session is
    connected and belongs to the resolved target, and a second
    connect(target) resolves with the same session and leaves the object
    as it was: no client is created, nothing is done to a transport,
    the registry and the counter are unchanged.  More generally, when
    the registry holds a connected session of the resolved target, the
    scan finds one and connect returns it at once, the object unchanged. *)
Theorem connect_reuses_session (e1 e2 : connect_env) (target : option string)
    (m m1 : SSHConnectionManager.t) (c : SSHConnection) :
  (connect e1 target m = (m1, Resolved c) →
     connected c = true ∧ connect e2 target m1 = (m1, Resolved c)) ∧
  (∀ nm config x,
     or_else target (getDefaultServer (configManager m)) = Some nm →
     truthy nm = true →
     getServer nm (configManager m) = Some config →
     x ∈ values (connections m) → server_name x = nm → connected x = true →
     ∃ conn, scan nm (values (connections m)) = Some conn ∧
             conn ∈ values (connections m) ∧
             server_name conn = nm ∧ connected conn = true ∧
             connect e2 target m = (m, Resolved conn)).
Proof.
  split.
  - unfold connect.
    destruct (or_else target (getDefaultServer (configManager m))) as [nm |] eqn:En;
      [| done].
    destruct (truthy nm) eqn:Et; simpl; [| done].
    destruct (getServer nm (configManager m)) as [config |] eqn:Eg; [| done].
    destruct (scan nm (values (connections m))) as [conn |] eqn:Es.
    + intros [= <- <-]. rewrite En, Et, Eg, Es. simpl.
      by destruct (scan_Some _ _ _ Es) as (_ & _ & ->).
    + intros He. destruct (establish_Resolved _ _ _ _ _ _ He Es) as (Hc & Hn & Hf & Hs).
      rewrite Hc, En, Et, Eg, Hs. done.
  - intros nm config x En Et Eg Hin Hn Hc.
    destruct (scan_finds _ _ _ Hin Hn Hc) as [conn Hs].
    exists conn. destruct (scan_Some _ _ _ Hs) as (? & ? & ?).
    repeat split; try done.
    unfold connect. by rewrite En, Et, Eg, Hs.
Qed.


End Sessions.

(** ** Properties of the connection manager: disconnect *)

Section Disconnect.

Import ServerConfigManager SSHConnectionManager.

Lemma Map_get_delete_eq k m : Map_get k (Map_delete k m) = None.
Proof.
  induction m as [| [k' v'] m IH]; simpl; [done |].
  destruct (decide (k' = k)) as [-> | Hne]; simpl; [done |].
  by rewrite decide_False.
Qed.

Lemma Map_get_delete_ne k k' m :
  k ≠ k' → Map_get k' (Map_delete k m) = Map_get k' m.
Proof.
  intros Hne. induction m as [| [k0 v0] m IH]; simpl; [done |].
  destruct (decide (k0 = k)) as [-> | Hne0]; simpl.
  - by rewrite decide_False.
  - by rewrite IH.
Qed.

Lemma elem_of_Map_delete k kv m :
  kv ∈ Map_delete k m → kv ∈ m ∧ kv.1 ≠ k.
Proof.
  induction m as [| [k0 v0] m IH]; simpl; [by intros ?%elem_of_nil |].
  destruct (decide (k0 = k)) as [-> | Hne0].
  - intros H. destruct (IH H). split; [by right | done].
  - intros [-> | H]%elem_of_cons; [split; [left | done] |].
    destruct (IH H). split; [by right | done].
Qed.

(** On a [Map]: a registered id. *)
Lemma disconnect_registered cid conn r m :
  truthy cid = true → connections m = JSMap r → Map_get cid r = Some conn →
  disconnect (Some cid) m =
    (with_connections (JSMap (Map_delete cid r))
       (with_action (ClientEnd (client conn)) m), Returned 1%nat) ∧
  Map_get cid (Map_delete cid r) = None ∧
  (∀ k, k ≠ cid → Map_get k (Map_delete cid r) = Map_get k r).
Proof.
  intros Ht Hr Hg. unfold disconnect. rewrite Ht, Hr. simpl. rewrite Hg, Hr.
  simpl. repeat split.
  - apply Map_get_delete_eq.
  - intros k Hk. by apply Map_get_delete_ne.
Qed.

(** On a [Map]: an id that is not registered. *)
Lemma disconnect_unknown cid r m :
  truthy cid = true → connections m = JSMap r → Map_get cid r = None →
  disconnect (Some cid) m = (m, Returned 0%nat).
Proof.
  intros Ht Hr Hg. unfold disconnect. by rewrite Ht, Hr; simpl; rewrite Hg.
Qed.

Lemma disconnect_loop_Map todo : ∀ m r n,
  connections m = JSMap r →
  (∀ kv, kv ∈ r → kv.1 ∈ map fst todo) →
  ∃ m', disconnect_loop todo m n = (m', Returned (n + length todo)%nat) ∧
        connections m' = JSMap [] ∧
        actions m' = (actions m ++ map (fun kv => ClientEnd (client kv.2)) todo)%list.
Proof.
  induction todo as [| [k v] todo IH]; intros m r n Hr Hkeys; simpl.
  - exists m. rewrite Nat.add_0_r, app_nil_r. repeat split.
    destruct r as [| kv r]; [done |].
    specialize (Hkeys kv). simpl in Hkeys.
    exfalso. eapply not_elem_of_nil, Hkeys. left.
  - rewrite Hr. simpl.
    edestruct (IH (with_connections (JSMap (Map_delete k r))
                     (with_action (ClientEnd (client v)) m))
                  (Map_delete k r) (S n)) as (m' & He & Hc & Ha); [done | |].
    + intros kv [Hin Hne]%elem_of_Map_delete.
      specialize (Hkeys kv Hin). simpl in Hkeys.
      apply elem_of_cons in Hkeys as [? | ?]; done.
    + exists m'. rewrite He, Hc, Ha. simpl.
      rewrite <- app_assoc. repeat split. f_equal. f_equal. lia.
Qed.

(** On a [Map]: the bulk form ends every transport, empties the
    registry and returns the number of sessions it held. *)
Lemma disconnect_all r m :
  connections m = JSMap r →
  ∃ m', disconnect None m = (m', Returned (length r)) ∧
        connections m' = JSMap [] ∧
        actions m' = (actions m ++ map (fun kv => ClientEnd (client kv.2)) r)%list ∧
        total (getStatus m') = Some 0%nat.
Proof.
  intros Hr. unfold disconnect. rewrite Hr. simpl.
  destruct (disconnect_loop_Map r m r 0%nat Hr) as (m' & He & Hc & Ha).
  - intros kv Hin. apply list_elem_of_fmap. by exists kv.
  - exists m'. repeat split; try done.
    unfold getStatus. by rewrite Hc.
Qed.

(** [if (connection_id)]: the empty string is no id, and the call is
    the bulk form. *)
Lemma disconnect_empty_id m : disconnect (Some "") m = disconnect None m.
Proof. reflexivity. Qed.

(** On an array: [get] is missing, so [disconnect] with an id raises
    and does nothing else; and [connect] can reuse but never register,
    so the registry stays the array it was. *)
Lemma disconnect_on_array cid l m :
  truthy cid = true → connections m = JSArray l →
  disconnect (Some cid) m =
    (m, Threw (TypeError "this.connections.get is not a function")).
Proof. intros Ht Hr. unfold disconnect. by rewrite Ht, Hr. Qed.

Lemma connect_on_array e target l m :
  connections m = JSArray l →
  connections (fst (connect e target m)) = JSArray l.
Proof.
  intros Hr. unfold connect.
  destruct (or_else target _) as [nm |]; [| done].
  destruct (truthy nm); simpl; [| done].
  destruct (getServer nm _) as [config |]; [| done].
  destruct (scan nm _) as [conn |]; [done |].
  unfold establish. simpl.
  destruct (connectConfig_of e config) as [cfg | err]; [| done].
  destruct (answer e); simpl; try done.
  unfold on_ready. simpl. by rewrite Hr.
Qed.

Lemma connect_on_source_initialiser e target cfg v :
  snd (connect e target (new_source cfg)) ≠ Resolved v.
Proof.
  unfold connect.
  destruct (or_else target _) as [nm |]; [| done].
  destruct (truthy nm); simpl; [| done].
  destruct (getServer nm _) as [config |]; [| done].
  simpl. unfold establish. simpl.
  destruct (connectConfig_of e config) as [c | err]; [| done].
  destruct (answer e); simpl; done.
Qed.

(** C6, on the object the TypeScript source constructs.  Its field
    [connections] is initialised with an array: [disconnect] with an id
    calls [get], which an array does not have, and raises a TypeError
    where [{disconnected: 0}] is due; the bulk form finds nothing to
    visit, and the [total] that [getStatus] then reports is [undefined],
    not 0.  [disconnect_registered], [disconnect_unknown] and
    [disconnect_all] are the three parts of the statement on the [Map] the
    field is declared to hold. *)
Theorem disconnect_on_source_initialiser (cfg : ServerConfigManager.t) :
  disconnect (Some "conn_1_0") (new_source cfg) =
    (new_source cfg, Threw (TypeError "this.connections.get is not a function")) ∧
  disconnect None (new_source cfg) = (new_source cfg, Returned 0%nat) ∧
  total (getStatus (new_source cfg)) = None ∧
  disconnect (Some "conn_1_0") (new_compiled cfg) = (new_compiled cfg, Returned 0%nat) ∧
  total (getStatus (new_compiled cfg)) = Some 0%nat.
Proof. done. Qed.

End Disconnect.

(** ** Properties of the connection manager: executeCommand *)

Section Exec.

Import ServerConfigManager SSHConnectionManager.

Lemma append_cons x (a b : string) : String x a +:+ b = String x (a +:+ b).
Proof. reflexivity. Qed.

Lemma append_assoc (a b c : string) : (a +:+ b) +:+ c = a +:+ (b +:+ c).
Proof. induction a as [| x a IH]; [done |]. rewrite !append_cons. by f_equal. Qed.

Lemma append_empty_r (a : string) : a +:+ "" = a.
Proof. induction a as [| x a IH]; [done |]. rewrite append_cons. by f_equal. Qed.

(** The handle of the timer is assigned once. *)
Lemma timer_on_event s now ev st : timer (on_event s now ev st) = timer st.
Proof.
  destruct ev as [[d |] | data | data | code]; simpl;
    unfold reject, resolve, cleanup; simpl;
    repeat (match goal with
            | |- context [match ?x with _ => _ end] => destruct x eqn:?; simpl
            end); try done; simpl in *; congruence.
Qed.

Lemma timer_on_timer T st : timer (on_timer T st) = timer st.
Proof.
  unfold on_timer, reject, cleanup.
  destruct (timer st) eqn:E; simpl; destruct (promise st); simpl; done.
Qed.

Lemma timer_fire_due tie T now st : timer (fire_due tie T now st) = timer st.
Proof. unfold fire_due. destruct (timer_due tie now st); [apply timer_on_timer | done]. Qed.

(** A settled promise keeps its state. *)
Lemma promise_reject err st :
  promise st ≠ Pending → promise (reject err st) = promise st.
Proof. intros H. unfold reject. destruct (promise st) eqn:E; simpl; congruence. Qed.

Lemma promise_resolve v st :
  promise st ≠ Pending → promise (resolve v st) = promise st.
Proof. intros H. unfold resolve. destruct (promise st) eqn:E; simpl; congruence. Qed.

Lemma promise_cleanup st : promise (cleanup st) = promise st.
Proof. unfold cleanup. by destruct (timer st). Qed.

Lemma promise_on_timer T st :
  promise st ≠ Pending → promise (on_timer T st) = promise st.
Proof.
  intros H. unfold on_timer. rewrite promise_reject; rewrite promise_cleanup; done.
Qed.

Lemma promise_on_event s now ev st :
  promise st ≠ Pending → promise (on_event s now ev st) = promise st.
Proof.
  intros H. destruct ev as [[d |] | data | data | code]; simpl; try done.
  - rewrite promise_reject; rewrite promise_cleanup; done.
  - by destruct (listening st).
  - by destruct (listening st).
  - destruct (listening st); [| done].
    rewrite promise_resolve; simpl; rewrite promise_cleanup; done.
Qed.

Lemma promise_fire_due tie T now st :
  promise st ≠ Pending → promise (fire_due tie T now st) = promise st.
Proof.
  intros H. unfold fire_due. destruct (timer_due tie now st); [| done].
  by apply promise_on_timer.
Qed.

Lemma promise_deliver tie T s evs : ∀ st,
  promise st ≠ Pending → promise (deliver tie T s evs st) = promise st.
Proof.
  induction evs as [| [now ev] evs IH]; intros st H; simpl; [done |].
  rewrite IH.
  - rewrite promise_on_event; rewrite promise_fire_due; done.
  - rewrite promise_on_event; rewrite promise_fire_due; done.
Qed.

Lemma promise_expire T st :
  promise st ≠ Pending → promise (expire T st) = promise st.
Proof.
  intros H. unfold expire. destruct (timer st); [| done].
  destruct (timer_live st); [| done]. by apply promise_on_timer.
Qed.

(** *** The timer fires: no settling delivery up to the deadline *)

Lemma awaiting_fire_due tie T deadline now st :
  awaiting T deadline st →
  awaiting T deadline (fire_due tie T now st) ∧
  (deadline < now → promise (fire_due tie T now st) = Rejected (CommandTimeoutError T)).
Proof.
  intros [Ht Hp]. unfold fire_due, timer_due. rewrite Ht.
  destruct Hp as [[Hp Hl] | Hp].
  - rewrite Hl. simpl.
    destruct (if tie then deadline <=? now else deadline <? now) eqn:E.
    + unfold on_timer, reject, cleanup. rewrite Ht. simpl. rewrite Hp. simpl.
      split; [split; [done | by right] | done].
    + split; [split; [done | by left] |].
      intros Hlt. destruct tie; lia.
  - destruct (timer_live st && _) eqn:E.
    + assert (promise (on_timer T st) = Rejected (CommandTimeoutError T)) as Hq
        by (rewrite promise_on_timer by (rewrite Hp; done); done).
      split; [split; [by rewrite timer_on_timer | by right] | done].
    + split; [split; [done | by right] | done].
Qed.

Lemma awaiting_on_event T deadline s now ev st :
  awaiting T deadline st →
  (settling ev = true → promise st = Rejected (CommandTimeoutError T)) →
  awaiting T deadline (on_event s now ev st).
Proof.
  intros [Ht Hp] Hs. split; [by rewrite timer_on_event |].
  destruct (settling ev) eqn:Es.
  - right. rewrite promise_on_event by (rewrite Hs; done). by apply Hs.
  - destruct ev as [[d |] | data | data | code]; simpl in *; try done;
      by destruct (listening st).
Qed.

Lemma awaiting_deliver tie T deadline limit s evs : ∀ st,
  deadline ≤ limit → silent_until limit evs = true →
  awaiting T deadline st →
  awaiting T deadline (deliver tie T s evs st).
Proof.
  induction evs as [| [now ev] evs IH]; intros st Hle Hq Hst; simpl in *; [done |].
  apply andb_prop in Hq as [Hq1 Hq2].
  apply IH; [done | done |].
  destruct (awaiting_fire_due tie T deadline now st Hst) as [Ha Hf].
  apply awaiting_on_event; [done |].
  intros Hset. apply Hf. rewrite Hset in Hq1. simpl in Hq1. lia.
Qed.

Lemma awaiting_expire T deadline st :
  awaiting T deadline st → promise (expire T st) = Rejected (CommandTimeoutError T).
Proof.
  intros [Ht [[Hp Hl] | Hp]]; unfold expire; rewrite Ht.
  - rewrite Hl. unfold on_timer, reject, cleanup. rewrite Ht. simpl. by rewrite Hp.
  - destruct (timer_live st); [| done]. by rewrite promise_on_timer by (rewrite Hp; done).
Qed.

Lemma timer_delay_le T : 0 < T → 1 ≤ timer_delay (T * 1000) ≤ T * 1000.
Proof.
  intros H. unfold timer_delay, TIMEOUT_MAX.
  destruct ((1 <=? T * 1000) && (T * 1000 <=? 2147483647)) eqn:E; lia.
Qed.

Lemma timer_delay_in_range T :
  0 < T → T * 1000 ≤ TIMEOUT_MAX → timer_delay (T * 1000) = T * 1000.
Proof.
  intros H1 H2. unfold timer_delay, TIMEOUT_MAX in *.
  destruct ((1 <=? T * 1000) && (T * 1000 <=? 2147483647)) eqn:E; lia.
Qed.

Lemma awaiting_arm armed T :
  0 < T → awaiting T (armed + timer_delay (T * 1000)) (arm armed T).
Proof.
  intros H. unfold awaiting, arm. simpl.
  replace (0 <? T) with true by lia. split; [done | by left].
Qed.

(** The executor itself: with a timer of [T] seconds and no settling
    delivery within [T] seconds of the arming, the promise is rejected
    by the timer. *)
Lemma run_exec_times_out e c command T m :
  0 < T → exec_throws e = None →
  silent_until (armed_clock e + T * 1000) (events e) = true →
  run_exec e c command T m =
    (with_action (ClientExec (client c) command) m,
     snd (run_exec e c command T m)) ∧
  promise (snd (run_exec e c command T m)) = Rejected (CommandTimeoutError T).
Proof.
  intros HT Hx Hq. unfold run_exec. rewrite Hx. simpl. split; [done |].
  eapply awaiting_expire, awaiting_deliver; [| exact Hq | by apply awaiting_arm].
  pose proof (timer_delay_le T HT). lia.
Qed.

(** *** No timer: the call is never rejected by it *)

Lemma reject_cases err st :
  promise (reject err st) = promise st ∨ promise (reject err st) = Rejected err.
Proof. unfold reject. destruct (promise st) eqn:E; simpl; auto. Qed.

Lemma resolve_cases v st :
  promise (resolve v st) = promise st ∨ promise (resolve v st) = Resolved v.
Proof. unfold resolve. destruct (promise st) eqn:E; simpl; auto. Qed.

Lemma untimed_on_event s now ev st : untimed st → untimed (on_event s now ev st).
Proof.
  intros [Ht Hp]. split; [by rewrite timer_on_event |]. intros T.
  destruct ev as [[d |] | data | data | code]; simpl.
  - destruct (reject_cases (TransportError d) (cleanup st)) as [-> | ->];
      [rewrite promise_cleanup; apply Hp | done].
  - apply Hp.
  - destruct (listening st); apply Hp.
  - destruct (listening st); apply Hp.
  - destruct (listening st); [| apply Hp].
    match goal with |- promise (resolve ?v ?x) ≠ _ =>
      destruct (resolve_cases v x) as [-> | ->] end;
      [simpl; rewrite promise_cleanup; apply Hp | done].
Qed.

Lemma untimed_fire_due tie T now st : untimed st → fire_due tie T now st = st.
Proof. intros [Ht _]. unfold fire_due, timer_due. by rewrite Ht. Qed.

Lemma untimed_deliver tie T s evs : ∀ st,
  untimed st → untimed (deliver tie T s evs st).
Proof.
  induction evs as [| [now ev] evs IH]; intros st H; simpl; [done |].
  apply IH. rewrite untimed_fire_due by done. by apply untimed_on_event.
Qed.

Lemma untimed_expire T st : untimed st → expire T st = st.
Proof. intros [Ht _]. unfold expire. by rewrite Ht. Qed.

Lemma untimed_arm armed T : T ≤ 0 → untimed (arm armed T).
Proof.
  intros H. unfold untimed, arm. simpl.
  replace (0 <? T) with false by lia. done.
Qed.

Lemma run_exec_untimed e c command T m :
  T ≤ 0 → untimed (snd (run_exec e c command T m)).
Proof.
  intros H. unfold run_exec. pose proof (untimed_arm (armed_clock e) T H) as Ha.
  destruct (exec_throws e) as [d |]; simpl.
  - assert (untimed (reject (TransportError d) (arm (armed_clock e) T))) as Hr.
    { destruct Ha as [Ht Hp]. split; [done |]. intros T'.
      destruct (reject_cases (TransportError d) (arm (armed_clock e) T)) as [-> | ->];
        [apply Hp | done]. }
    by rewrite untimed_expire.
  - rewrite untimed_expire; by apply untimed_deliver.
Qed.

(** The errors [connect] is rejected with. *)
Lemma connect_Rejected e target m m1 err :
  connect e target m = (m1, Rejected err) →
  err = NoTargetError ∨ (∃ nm, err = UnknownServerError nm) ∨
  (∃ d, err = FsError d) ∨ (∃ d, err = TransportError d).
Proof.
  unfold connect.
  destruct (or_else target _) as [nm |]; [| intros [= <- <-]; by left].
  destruct (truthy nm); simpl; [| intros [= <- <-]; by left].
  destruct (getServer nm _) as [config |]; [| intros [= <- <-]; right; left; eauto].
  destruct (scan nm _) as [conn |]; [done |].
  unfold establish. simpl.
  destruct (connectConfig_of e config) as [cfg | err'] eqn:Ec.
  - destruct (answer e); simpl.
    + unfold on_ready. simpl. destruct (connections m); simpl; done.
    + intros [= <- <-]. right; right; right; eauto.
    + intros [= <- <-]. right; right; right; eauto.
    + done.
  - intros [= <- <-]. unfold connectConfig_of in Ec.
    destruct (truthy_opt (key_path config)).
    + destruct (key_file e); [done |]. injection Ec as <-. right; right; left; eauto.
    + destruct (truthy_opt (password config)); done.
Qed.

Lemma connect_not_timeout e target m m1 err T :
  connect e target m = (m1, Rejected err) → err ≠ CommandTimeoutError T.
Proof.
  intros H. destruct (connect_Rejected _ _ _ _ _ H) as [-> | [[nm ->] | [[d ->] | [d ->]]]];
    unfold NoTargetError, UnknownServerError, CommandTimeoutError;
    cbv [String.append]; discriminate.
Qed.

(** *** The timer and the resolved promise *)












(** *** The stream closes before the deadline *)

Lemma deliver_app tie T s l1 l2 st :
  deliver tie T s (l1 ++ l2) st = deliver tie T s l2 (deliver tie T s l1 st).
Proof. revert st. induction l1 as [| [now ev] l1 IH]; intros st; simpl; [done | apply IH]. Qed.

Lemma fire_due_early tie T deadline now st :
  timer st = Some deadline → now < deadline → fire_due tie T now st = st.
Proof.
  intros Ht Hlt. unfold fire_due, timer_due. rewrite Ht.
  replace (if tie then deadline <=? now else deadline <? now) with false
    by (destruct tie; lia).
  by rewrite andb_false_r.
Qed.

(** Chunks delivered before the deadline are appended to the
    accumulator of their stream and change nothing else. *)
Lemma deliver_data tie T s deadline data : ∀ st,
  promise st = Pending → listening st = true → timer st = Some deadline →
  all_data data = true → all_before deadline data = true →
  promise (deliver tie T s data st) = Pending ∧
  listening (deliver tie T s data st) = true ∧
  timer (deliver tie T s data st) = Some deadline ∧
  acc_stdout (deliver tie T s data st) = acc_stdout st +:+ stdout_of data ∧
  acc_stderr (deliver tie T s data st) = acc_stderr st +:+ stderr_of data.
Proof.
  induction data as [| [now ev] data IH]; intros st Hp Hl Ht Hd Hb.
  - simpl. by rewrite !append_empty_r.
  - simpl in Hd, Hb.
    apply andb_prop in Hd as [Hd1 Hd2]. apply andb_prop in Hb as [Hb1 Hb2].
    cbn [deliver]. rewrite (fire_due_early tie T deadline now st Ht) by lia.
    destruct (IH (on_event s now ev st)) as (H1 & H2 & H3 & H4 & H5);
      try done.
    + destruct ev; simpl in *; try done; by rewrite Hl.
    + destruct ev; simpl in *; try done; by rewrite Hl.
    + by rewrite timer_on_event.
    + rewrite H1, H2, H3, H4, H5.
      destruct ev as [err | chunk | chunk | code]; simpl in Hd1; try done;
        simpl; rewrite Hl; simpl; by rewrite ?append_assoc.
Qed.

Lemma on_event_close s now code st :
  promise st = Pending → listening st = true →
  promise (on_event s now (StreamClose code) st) =
    Resolved {| stdout := acc_stdout st; stderr := acc_stderr st;
                exit_code := code; duration := now - s |}.
Proof.
  intros Hp Hl. simpl. rewrite Hl. unfold resolve, cleanup.
  destruct (timer st); simpl; by rewrite Hp.
Qed.

(** The executor when the command starts, prints and closes before the
    deadline: the promise is resolved with what was accumulated, the
    code of the close, and the time since the start of the call. *)
Lemma run_exec_resolves e c command T m t0 data tc code rest :
  0 < T → T * 1000 ≤ TIMEOUT_MAX → exec_throws e = None →
  events e = (t0, ExecCallback None) :: data ++ (tc, StreamClose code) :: rest →
  all_data data = true →
  all_before (armed_clock e + T * 1000) ((t0, ExecCallback None) :: data) = true →
  tc < armed_clock e + T * 1000 →
  run_exec e c command T m =
    (with_action (ClientExec (client c) command) m,
     snd (run_exec e c command T m)) ∧
  promise (snd (run_exec e c command T m)) =
    Resolved {| stdout := stdout_of data; stderr := stderr_of data;
                exit_code := code; duration := tc - start_clock e |}.
Proof.
  intros HT Hmax Hx Hev Hd Hb Htc. unfold run_exec. rewrite Hx, Hev.
  split; [done |]. simpl snd.
  simpl in Hb. apply andb_prop in Hb as [Hb0 Hb].
  set (D := armed_clock e + T * 1000) in *.
  set (st0 := arm (armed_clock e) T).
  assert (timer st0 = Some D) as Ht0.
  { unfold st0, arm, D. simpl. replace (0 <? T) with true by lia.
    by rewrite timer_delay_in_range. }
  cbn [deliver]. rewrite (fire_due_early _ _ D t0 st0 Ht0) by lia.
  set (st1 := on_event (start_clock e) t0 (ExecCallback None) st0).
  rewrite deliver_app.
  destruct (deliver_data (timer_first e) T (start_clock e) D data st1)
    as (H1 & H2 & H3 & H4 & H5); try done.
  set (st2 := deliver (timer_first e) T (start_clock e) data st1) in *.
  cbn [deliver]. rewrite (fire_due_early _ _ D tc st2 H3) by lia.
  pose proof (on_event_close (start_clock e) tc code st2 H1 H2) as Hc.
  rewrite H4, H5 in Hc. change (acc_stdout st1) with "" in Hc.
  change (acc_stderr st1) with "" in Hc.
  change ("" +:+ stdout_of data) with (stdout_of data) in Hc.
  change ("" +:+ stderr_of data) with (stderr_of data) in Hc.
  rewrite promise_expire; rewrite promise_deliver; rewrite ?Hc; done.
Qed.

(** C3, as the code has it.  The timer is armed by the executor of
    the promise, which runs once connect has given its session; the
    window of T seconds starts there and the time spent in connect is
    not part of it (it is part of [duration] only).  The call is
    rejected with CommandTimeoutError when no close and no start failure
    is delivered within T seconds of the arming; and, for T seconds
    within the range of the timer, a command that starts and closes less
    than T seconds after the arming resolves the call, whatever the
    clock was when the call started. *)
Theorem timeout_measured_from_arming (e : exec_env) (target command : string)
    (T : Z) (m m1 : SSHConnectionManager.t) (c : SSHConnection)
    (t0 tc : Z) (data rest : list (Z * exec_event)) (code : option Z) :
  0 < T →
  connect (conn_env e) (Some target) m = (m1, Resolved c) →
  exec_throws e = None →
  (silent_until (armed_clock e + T * 1000) (events e) = true →
     executeCommand e target command (Some T) m =
       (with_action (ClientExec (client c) command) m1,
        Rejected (CommandTimeoutError T))) ∧
  (T * 1000 ≤ TIMEOUT_MAX →
   events e = (t0, ExecCallback None) :: data ++ (tc, StreamClose code) :: rest →
   all_data data = true →
   all_before (armed_clock e + T * 1000) ((t0, ExecCallback None) :: data) = true →
   tc < armed_clock e + T * 1000 →
     executeCommand e target command (Some T) m =
       (with_action (ClientExec (client c) command) m1,
        Resolved {| stdout := stdout_of data; stderr := stderr_of data;
                    exit_code := code; duration := tc - start_clock e |})).
Proof.
  intros HT Hc Hx. split.
  - intros Hq. unfold executeCommand, executeCommand_closure. simpl. rewrite Hc.
    destruct (run_exec_times_out e c command T m1 HT Hx Hq) as [He Hp].
    rewrite He. simpl. by rewrite Hp.
  - intros Hmax Hev Hd Hb Htc.
    unfold executeCommand, executeCommand_closure. simpl. rewrite Hc.
    destruct (run_exec_resolves e c command T m1 t0 data tc code rest
                HT Hmax Hx Hev Hd Hb Htc) as [He Hp].
    rewrite He. simpl. by rewrite Hp.
Qed.

Lemma connect_empty_target e m d :
  getDefaultServer (configManager m) = Some d → truthy d = true →
  connect e (Some "") m = connect e (Some d) m.
Proof.
  intros Hd Ht. unfold connect, or_else. simpl. rewrite Hd. simpl. by rewrite !Ht.
Qed.

(** C4, as the code has it.  executeCommand does not check that the
    target or the command is non-empty.  An empty target is resolved as
    connect resolves an absent one: with no default configured the call
    is rejected with NoTargetError and nothing is done; with a default
    configured the call is the call on the default server.  The command
    is handed to the exec of the transport as it is, the empty string
    included. *)
Theorem executeCommand_empty_arguments (e : exec_env) (target command d : string)
    (timeout : option Z) (m m1 : SSHConnectionManager.t) (c : SSHConnection) :
  (truthy_opt (getDefaultServer (configManager m)) = false →
     executeCommand e "" command timeout m = (m, Rejected NoTargetError)) ∧
  (getDefaultServer (configManager m) = Some d → truthy d = true →
     executeCommand e "" command timeout m = executeCommand e d command timeout m) ∧
  (connect (conn_env e) (Some target) m = (m1, Resolved c) →
   exec_throws e = None →
     actions (fst (executeCommand e target "" timeout m)) =
       (actions m1 ++ [ClientExec (client c) ""])%list).
Proof.
  split; [| split].
  - intros Hd. unfold executeCommand, executeCommand_closure, connect, or_else.
    simpl. destruct (getDefaultServer (configManager m)) as [d' |]; [| done].
    simpl in Hd. by rewrite Hd.
  - intros Hd Ht. unfold executeCommand, executeCommand_closure.
    by rewrite (connect_empty_target _ _ _ Hd Ht).
  - intros Hc Hx. unfold executeCommand, executeCommand_closure, run_exec.
    by rewrite Hc, Hx.
Qed.

End Exec.

(** ** The statements at concrete inputs *)

Section Instances.

Import ServerConfigManager SSHConnectionManager Examples.


(** C8 at a second add of "a". *)
Lemma duplicate_add_rejected_witness :
  is_Some (getServer (in_name input_a) store_ab) ∧
  addServer WriteOk input_a store_ab =
    (store_ab, Threw (DuplicateServerError "a")).
Proof.
  assert (is_Some (getServer (in_name input_a) store_ab)) as H
    by (vm_compute; eexists; reflexivity).
  split; [exact H |].
  exact (proj1 (duplicate_add_rejected WriteOk input_a store_ab H)).
Defined.

(** C9 with a disk that refuses the write. *)
Lemma failed_save_is_raised_witness :
  (∃ err, snd (run_op (set_default "b" (WriteFails "ENOSPC")) store_ab) = Threw err) ∧
  snd (addServer (WriteFails "ENOSPC") input_b empty_store) = Threw (FsError "ENOSPC") ∧
  snd (deleteServer (WriteFails "ENOSPC") "b" store_ab) = Threw (FsError "ENOSPC") ∧
  snd (setDefaultServer (WriteFails "ENOSPC") "b" store_ab) = Threw (FsError "ENOSPC").
Proof.
  pose proof (failed_save_is_raised "ENOSPC" (set_default "b" (WriteFails "ENOSPC"))
                input_b "b" store_ab) as (H1 & _ & H3).
  pose proof (failed_save_is_raised "ENOSPC" (set_default "b" (WriteFails "ENOSPC"))
                input_b "b" empty_store) as (_ & H2 & _).
  split; [apply H1; reflexivity |].
  split; [apply H2; vm_compute; reflexivity |].
  apply H3. vm_compute. eexists. reflexivity.
Defined.

(** C10 with a disk that refuses the write. *)
Lemma failed_save_keeps_change_witness :
  getServer "b" (fst (addServer (WriteFails "ENOSPC") input_b empty_store))
    = Some (make_server input_b) ∧
  getServer "b" (fst (deleteServer (WriteFails "ENOSPC") "b" store_ab)) = None ∧
  getDefaultServer (fst (setDefaultServer (WriteFails "ENOSPC") "b" store_ab)) = Some "b".
Proof.
  pose proof (failed_save_keeps_change "ENOSPC" input_b "b" store_ab) as (_ & H2 & H3).
  pose proof (failed_save_keeps_change "ENOSPC" input_b "b" empty_store) as (H1 & _ & _).
  assert (is_Some (getServer "b" store_ab)) as Hb by (vm_compute; eexists; reflexivity).
  split; [apply H1; vm_compute; reflexivity |].
  split; [apply (H2 Hb) | apply (H3 Hb)].
Defined.

(** C1: connect("a") twice; the second call gets a transport that
    would refuse, and does not reach it. *)
Lemma connect_reuses_session_witness :
  connect env_ready (Some "a") (new_compiled store_ab) = (manager_a, Resolved session_a) ∧
  connect env_refused (Some "a") manager_a = (manager_a, Resolved session_a) ∧
  (∃ conn, scan "a" (values (connections manager_a)) = Some conn ∧
           connect env_refused None manager_a = (manager_a, Resolved conn)).
Proof.
  assert (connect env_ready (Some "a") (new_compiled store_ab)
          = (manager_a, Resolved session_a)) as H by (vm_compute; reflexivity).
  split; [exact H |]. split.
  - exact (proj2 (proj1 (connect_reuses_session env_ready env_refused (Some "a")
                           (new_compiled store_ab) manager_a session_a) H)).
  - destruct (proj2 (connect_reuses_session env_ready env_refused None
                       manager_a manager_a session_a)
                    "a" (make_server input_a) session_a)
      as (conn & Hs & _ & _ & _ & Hc).
    + vm_compute. reflexivity.
    + reflexivity.
    + vm_compute. reflexivity.
    + vm_compute. left.
    + reflexivity.
    + reflexivity.
    + exists conn. split; [exact Hs | exact Hc].
Defined.



(** C3 as the specification words it, at a call that takes
    20 s to get its session and 15 s to run, with a timeout of 30 s:
    connect time plus exec time exceeds the timeout, and the call
    resolves. *)
Lemma timeout_not_from_call_start :
  30 * 1000 < (armed_clock env_slow_connect - start_clock env_slow_connect)
              + (35000 - armed_clock env_slow_connect) ∧
  snd (executeCommand env_slow_connect "a" "ls" (Some 30) (new_compiled store_ab))
    = Resolved {| stdout := "hi"; stderr := ""; exit_code := Some 0;
                  duration := 35000 |}.
Proof. split; vm_compute; reflexivity. Defined.

Lemma timeout_measured_from_arming_witness :
  executeCommand env_hangs "a" "tail -f log" (Some 1) (new_compiled store_ab)
    = (with_action (ClientExec 0 "tail -f log") manager_a,
       Rejected (CommandTimeoutError 1)) ∧
  executeCommand env_slow_connect "a" "ls" (Some 30) (new_compiled store_ab)
    = (with_action (ClientExec 0 "ls") manager_a,
       Resolved {| stdout := "hi"; stderr := ""; exit_code := Some 0;
                   duration := 35000 |}).
Proof.
  split.
  - apply (timeout_measured_from_arming env_hangs "a" "tail -f log" 1
             (new_compiled store_ab) manager_a session_a 0 0 [] [] None);
      [lia | vm_compute; reflexivity | reflexivity | vm_compute; reflexivity].
  - apply (timeout_measured_from_arming env_slow_connect "a" "ls" 30
             (new_compiled store_ab) manager_a session_a
             20010 35000 [(21000, StdoutData "hi")] [] (Some 0));
      [lia | vm_compute; reflexivity | reflexivity | vm_compute; discriminate
      | reflexivity | reflexivity | vm_compute; reflexivity
      | vm_compute; reflexivity].
Defined.

(** C4 as the specification words it, at an empty target
    with "a" the default, and at an empty command: both calls resolve,
    the first after running "ls" on the session of "a", the second
    after handing the empty command to the transport. *)
Lemma executeCommand_empty_target_runs :
  executeCommand env_slow_connect "" "ls" (Some 30) (new_compiled store_ab)
    = (with_action (ClientExec 0 "ls") manager_a,
       Resolved {| stdout := "hi"; stderr := ""; exit_code := Some 0;
                   duration := 35000 |}) ∧
  actions (with_action (ClientExec 0 "ls") manager_a)
    = [ClientConnect 0 connectConfig_a; ClientExec 0 "ls"] ∧
  executeCommand env_slow_connect "a" "" (Some 30) (new_compiled store_ab)
    = (with_action (ClientExec 0 "") manager_a,
       Resolved {| stdout := "hi"; stderr := ""; exit_code := Some 0;
                   duration := 35000 |}).
Proof. split; [| split]; vm_compute; reflexivity. Defined.

Lemma executeCommand_empty_arguments_witness :
  executeCommand env_slow_connect "" "ls" (Some 30) (new_compiled store_no_default)
    = (new_compiled store_no_default, Rejected NoTargetError) ∧
  executeCommand env_slow_connect "" "ls" (Some 30) (new_compiled store_ab)
    = executeCommand env_slow_connect "a" "ls" (Some 30) (new_compiled store_ab) ∧
  actions (fst (executeCommand env_slow_connect "a" "" (Some 30) (new_compiled store_ab)))
    = [ClientConnect 0 connectConfig_a; ClientExec 0 ""].
Proof.
  split; [| split].
  - apply (executeCommand_empty_arguments env_slow_connect "a" "ls" "a" (Some 30)
             (new_compiled store_no_default) manager_a session_a).
    reflexivity.
  - apply (executeCommand_empty_arguments env_slow_connect "a" "ls" "a" (Some 30)
             (new_compiled store_ab) manager_a session_a);
      [vm_compute; reflexivity | reflexivity].
  - rewrite (proj2 (proj2 (executeCommand_empty_arguments env_slow_connect "a" "ls" "a"
               (Some 30) (new_compiled store_ab) manager_a session_a)));
      [vm_compute; reflexivity | vm_compute; reflexivity | reflexivity].
Defined.

End Instances.

(** ** The credential store: lookups, restarts and listings *)

Section StoreQueries.

Import ServerConfigManager ServerConfigQueries.


Lemma addServer_fresh w i s :
  getServer (in_name i) s = None →
  getServer (in_name i) (fst (addServer w i s)) = Some (make_server i) ∧
  getDefaultServer (fst (addServer w i s)) = getDefaultServer s.
Proof.
  intros Hn. unfold getServer, getDefaultServer.
  rewrite (addServer_config w i s Hn). simpl. by rewrite lookup_insert_eq.
Qed.



(** X3. On a store whose default pointer names an existing credential,
    adding a credential under a new name and then deleting it gives
    back the configuration the store had: the same entries and the same
    default pointer. *)
Theorem add_then_delete_restores (w1 w2 : write_result) (i : AddServerInput)
    (s : ServerConfigManager.t) :
  default_ok s → getServer (in_name i) s = None →
  config (fst (deleteServer w2 (in_name i) (fst (addServer w1 i s)))) = config s.
Proof.
  intros Hok Hn.
  pose proof (addServer_fresh w1 i s Hn) as (Hg & Hd).
  rewrite deleteServer_config by (rewrite Hg; eauto).
  rewrite (addServer_config w1 i s Hn). simpl.
  rewrite delete_insert_eq, delete_id by exact Hn.
  destruct (decide (default_server (config s) = Some (in_name i))) as [Heq | Hne].
  - destruct (Hok _ Heq) as [c Hc]. unfold getServer in Hn. congruence.
  - by destruct (config s).
Qed.

Lemma run_op_names_ok o s : names_ok s → names_ok (fst (run_op o s)).
Proof.
  intros Hok. destruct o as [i w | nm w | nm w]; simpl.
  - destruct (addServer w i s) as [s' c] eqn:E. simpl.
    destruct (getServer_cases (in_name i) s) as [Hn | Hp].
    + pose proof (addServer_config w i s Hn) as Hc. rewrite E in Hc. simpl in Hc.
      intros k c'. rewrite Hc. simpl.
      destruct (decide (in_name i = k)) as [<- | Hne].
      * rewrite lookup_insert_eq. by intros [= <-].
      * rewrite lookup_insert_ne by done. apply Hok.
    + rewrite (addServer_present w i s Hp) in E. by inversion E; subst.
  - destruct (deleteServer w nm s) as [s' c] eqn:E. simpl.
    destruct (getServer_cases nm s) as [Hn | Hp].
    + rewrite (deleteServer_absent w nm s Hn) in E. by inversion E; subst.
    + pose proof (deleteServer_config w nm s Hp) as Hc. rewrite E in Hc. simpl in Hc.
      intros k c'. rewrite Hc. simpl.
      destruct (decide (nm = k)) as [<- | Hne].
      * by rewrite lookup_delete_eq.
      * rewrite lookup_delete_ne by done. apply Hok.
  - destruct (setDefaultServer w nm s) as [s' c] eqn:E. simpl.
    destruct (getServer_cases nm s) as [Hn | Hp].
    + rewrite (setDefaultServer_absent w nm s Hn) in E. by inversion E; subst.
    + pose proof (setDefaultServer_config w nm s Hp) as Hc. rewrite E in Hc. simpl in Hc.
      intros k c'. rewrite Hc. simpl. apply Hok.
Qed.

Lemma run_ops_names_ok ops : ∀ s, names_ok s → names_ok (run_ops ops s).
Proof.
  induction ops as [| o ops IH]; intros s Hs; [done |].
  apply IH. by apply run_op_names_ok.
Qed.

Lemma empty_store_names_ok : names_ok empty_store.
Proof. intros k c. simpl. by rewrite lookup_empty. Qed.

(** X4. Starting from the empty store, after every sequence of
    add_server, delete_server and set_default operations each entry is
    stored under its own name: the key of an entry is the [name] it
    carries. *)
Theorem entries_keyed_by_name (ops : list store_op) :
  names_ok (run_ops ops empty_store).
Proof.
  apply run_ops_names_ok. exact empty_store_names_ok.
Qed.

Lemma run_op_Returned_disk o s s' v :
  run_op o s = (s', Returned v) → disk s' = Some (config s').
Proof.
  destruct o as [i w | nm w | nm w]; simpl.
  - unfold addServer. destruct (servers (config s) !! in_name i); [done |].
    destruct w; simpl; [| done]. by intros [= <- _].
  - unfold deleteServer. destruct (servers (config s) !! nm); [| done].
    destruct w; simpl; [| done]. by intros [= <- _].
  - unfold setDefaultServer. destruct (servers (config s) !! nm); [| done].
    destruct w; simpl; [| done]. by intros [= <- _].
Qed.

Lemma run_op_synced o s :
  write_of o = WriteOk → synced s → synced (fst (run_op o s)).
Proof.
  intros Hw Hs. destruct (run_op o s) as [s' [v | err]] eqn:E; simpl.
  - unfold synced, file_of. by rewrite (run_op_Returned_disk _ _ _ _ E).
  - destruct o as [i w | nm w | nm w]; simpl in *; subst w.
    + unfold addServer in E.
      destruct (servers (config s) !! in_name i); by inversion E; subst.
    + unfold deleteServer in E.
      destruct (servers (config s) !! nm); by inversion E; subst.
    + unfold setDefaultServer in E.
      destruct (servers (config s) !! nm); by inversion E; subst.
Qed.

(** X5. An operation that returns has written the document: the file
    then holds the configuration in memory, and a new object
    constructed on that file loads exactly it.  With a disk that
    accepts every write, this is so after every sequence of operations
    from the empty store, rejected operations included. *)
Theorem returned_operation_is_persisted (o : store_op) (ops : list store_op)
    (s s' : ServerConfigManager.t) (v : unit) :
  (run_op o s = (s', Returned v) →
     disk s' = Some (config s') ∧ config (reopen s') = config s') ∧
  (Forall (fun o => write_of o = WriteOk) ops →
     config (reopen (run_ops ops empty_store)) = config (run_ops ops empty_store)).
Proof.
  split.
  - intros E. pose proof (run_op_Returned_disk _ _ _ _ E) as Hd.
    split; [done |]. unfold reopen, file_of. simpl. by rewrite Hd.
  - intros Hall.
    assert (∀ s0, synced s0 → synced (run_ops ops s0)) as H.
    { induction Hall as [| o' ops' Hw _ IH]; intros s0 Hs0; [done |].
      apply IH. by apply run_op_synced. }
    apply (H empty_store). reflexivity.
Qed.


End StoreQueries.

Section Listing.

Import ServerConfigManager ServerConfigQueries.

Variable toLowerCase : string → string.

Lemma startsWith_refl s : startsWith s s = true.
Proof. induction s as [| c s IH]; simpl; [done |]. by rewrite bool_decide_eq_true_2. Qed.

Lemma includes_refl s : includes s s = true.
Proof. destruct s; simpl; [done |]. by rewrite bool_decide_eq_true_2, startsWith_refl. Qed.

Lemma elem_of_values (m : gmap string SSHServerConfig) c :
  c ∈ (map_to_list m).*2 ↔ ∃ k, m !! k = Some c.
Proof.
  rewrite list_elem_of_fmap. split.
  - intros [[k c'] [-> Hin]]. exists k. by apply elem_of_map_to_list.
  - intros [k Hk]. exists (k, c). split; [done |]. by apply elem_of_map_to_list.
Qed.

Lemma elem_of_listServers_all b s x :
  x ∈ listServers toLowerCase None b s ↔
  ∃ k c, servers (config s) !! k = Some c ∧ x = listed s c.
Proof.
  unfold listServers. rewrite list_elem_of_fmap. split.
  - intros [c [-> [k Hk]%elem_of_values]]. eauto.
  - intros (k & c & Hk & ->). exists c. split; [done |]. apply elem_of_values. eauto.
Qed.

(** X7. Without a keyword (absent or empty) [listServers] returns one
    element for each entry of the store and no other, flagged
    [is_default] exactly when the entry carries the name of the default
    pointer.  On a store whose entries are keyed by their names, at
    most one element is flagged, and the credential the default pointer
    names is listed and flagged. *)
Theorem listServers_lists_the_store (b : bool) (s : ServerConfigManager.t)
    (x y : ListedServer) (d : string) (c : SSHServerConfig) :
  (x ∈ listServers toLowerCase None b s ↔
     ∃ k c', servers (config s) !! k = Some c' ∧ x = listed s c') ∧
  length (listServers toLowerCase None b s) = size (servers (config s)) ∧
  listServers toLowerCase (Some "") b s = listServers toLowerCase None b s ∧
  (names_ok s →
   x ∈ listServers toLowerCase None b s → y ∈ listServers toLowerCase None b s →
   is_default x = true → is_default y = true → x = y) ∧
  (names_ok s → getDefaultServer s = Some d → getServer d s = Some c →
   {| entry := c; is_default := true |} ∈ listServers toLowerCase None b s).
Proof.
  split; [apply elem_of_listServers_all |]. split; [| split; [done |]].
  { unfold listServers. by rewrite !length_fmap, length_map_to_list. }
  split.
  - intros Hok (k1 & c1 & H1 & ->)%elem_of_listServers_all
                (k2 & c2 & H2 & ->)%elem_of_listServers_all.
    simpl. intros E1%bool_decide_eq_true E2%bool_decide_eq_true.
    assert (k1 = k2) as <-.
    { rewrite <- (Hok _ _ H1), <- (Hok _ _ H2). congruence. }
    by simplify_eq.
  - intros Hok Hd Hg. apply elem_of_listServers_all. exists d, c.
    split; [done |]. unfold listed. f_equal. symmetry. apply bool_decide_eq_true.
    unfold getDefaultServer in Hd. rewrite Hd. f_equal. symmetry. by apply Hok.
Qed.

(** X8. With a non-empty keyword [listServers] returns exactly the
    elements of the full listing whose name, host or non-empty
    description contains the keyword once both are lower-cased; in
    particular the keyword that is the name of an entry finds that
    entry. *)
Theorem listServers_keyword (kw : string) (b : bool) (s : ServerConfigManager.t)
    (x : ListedServer) (k : string) (c : SSHServerConfig) :
  truthy kw = true →
  (x ∈ listServers toLowerCase (Some kw) b s ↔
     x ∈ listServers toLowerCase None b s ∧
     matches toLowerCase (toLowerCase kw) (entry x) = true) ∧
  (servers (config s) !! k = Some c → name c = kw →
     listed s c ∈ listServers toLowerCase (Some kw) b s).
Proof.
  intros Ht.
  assert (∀ z, z ∈ listServers toLowerCase (Some kw) b s ↔
               z ∈ listServers toLowerCase None b s ∧
               matches toLowerCase (toLowerCase kw) (entry z) = true) as H.
  { intros z. unfold listServers. rewrite Ht, !list_elem_of_fmap. split.
    - intros [c' [-> [Hm Hin]%list_elem_of_filter]]. split; [eauto | done].
    - intros [[c' [-> Hin]] Hm]. exists c'. split; [done |].
      by apply list_elem_of_filter. }
  split; [apply H |].
  intros Hk Hn. apply H. split.
  - apply elem_of_listServers_all. eauto.
  - simpl. unfold matches. by rewrite Hn, includes_refl.
Qed.


End Listing.


(** ** The connection manager: identifiers and the registry *)

Section Registry.

Import ServerConfigManager SSHConnectionManager Calls.

Lemma append_empty_l (a : string) : "" +:+ a = a.
Proof. reflexivity. Qed.

Lemma plain_app a b : plain (a +:+ b) = plain a && plain b.
Proof.
  induction a as [| c a IH]; [done |].
  rewrite append_cons. simpl. rewrite IH. by rewrite andb_assoc.
Qed.

Lemma pretty_N_char_plain x s :
  plain s = true → plain (String (pretty_N_char x) s) = true.
Proof.
  intros Hs. simpl. rewrite Hs, andb_true_r.
  unfold pretty_N_char. by repeat case_match.
Qed.

Lemma pretty_N_go_plain x : ∀ s, plain s = true → plain (pretty_N_go x s) = true.
Proof.
  induction (N.lt_wf_0 x) as [x _ IH]; intros s Hs.
  assert (x = 0 ∨ 0 < x)%N as [-> | Hpos] by lia.
  - by rewrite pretty_N_go_0.
  - rewrite pretty_N_go_step by done. apply IH.
    + by apply N.div_lt.
    + by apply pretty_N_char_plain.
Qed.

Lemma pretty_N_plain (x : N) : plain (pretty x) = true.
Proof.
  unfold pretty, pretty_N. case_decide; [done |]. by apply pretty_N_go_plain.
Qed.

Lemma pretty_Z_plain (z : Z) : plain (pretty z) = true.
Proof.
  destruct z as [| p | p]; [done | apply pretty_N_plain |].
  change (pretty (Z.neg p)) with ("-" +:+ pretty (N.pos p)).
  rewrite plain_app, pretty_N_plain. done.
Qed.

(** A string is cut in one way only at its first underscore. *)
Lemma underscore_split a : ∀ a' b b',
  plain a = true → plain a' = true →
  a +:+ "_" +:+ b = a' +:+ "_" +:+ b' → a = a' ∧ b = b'.
Proof.
  induction a as [| c a IH]; intros [| c' a'] b b' Ha Ha';
    rewrite ?append_cons, ?append_empty_l.
  - by intros [= ->].
  - intros [= <- _]. simpl in Ha'. done.
  - intros [= -> _]. simpl in Ha. done.
  - intros [= <- H]. simpl in Ha, Ha'.
    apply andb_prop in Ha as [_ Ha]. apply andb_prop in Ha' as [_ Ha'].
    destruct (IH _ _ _ Ha Ha' H) as [-> ->]. done.
Qed.

Lemma connection_id_of_inj now n now' n' :
  connection_id_of now n = connection_id_of now' n' → now = now' ∧ n = n'.
Proof.
  unfold connection_id_of. rewrite !append_cons, !append_empty_l.
  intros [= H].
  apply underscore_split in H as [H1 H2]; try apply pretty_Z_plain.
  split; by apply (inj pretty).
Qed.

Lemma connection_id_of_truthy now n : truthy (connection_id_of now n) = true.
Proof. unfold connection_id_of. by rewrite append_cons. Qed.

(** X10. Identifiers are made of the clock reading and the counter, and
    two identifiers are equal only when both are: the identifier of a
    call differs from the one of the call before it even when the clock
    has not moved. *)
Theorem generated_ids_differ (now now' : Z) (m : SSHConnectionManager.t) :
  snd (generateConnectionId now m) = connection_id_of now (connectionCounter m) ∧
  connectionCounter (fst (generateConnectionId now m)) = connectionCounter m + 1 ∧
  snd (generateConnectionId now' (fst (generateConnectionId now m)))
    ≠ snd (generateConnectionId now m) ∧
  (∀ n n', connection_id_of now n = connection_id_of now' n' → now = now' ∧ n = n').
Proof.
  split; [done |]. split; [done |]. split.
  - simpl. intros H.
    apply (connection_id_of_inj now' (connectionCounter m + 1) now (connectionCounter m))
      in H as [_ H]. lia.
  - intros n n'. apply connection_id_of_inj.
Qed.

(** *** The registry through a sequence of calls *)

Lemma Map_set_fresh k v r :
  k ∉ map fst r → Map_set k v r = (r ++ [(k, v)])%list.
Proof.
  induction r as [| [k' v'] r IH]; simpl; [done |].
  intros Hn. apply not_elem_of_cons in Hn as [Hne Hn].
  rewrite decide_False by done. by rewrite IH.
Qed.

Lemma Map_get_Some_elem k c r : Map_get k r = Some c → (k, c) ∈ r.
Proof.
  induction r as [| [k' v'] r IH]; simpl; [done |].
  destruct (decide (k' = k)) as [-> | Hne].
  - intros [= ->]. left.
  - intros H. right. by apply IH.
Qed.

Lemma Map_get_elem k c r : NoDup (map fst r) → (k, c) ∈ r → Map_get k r = Some c.
Proof.
  induction r as [| [k' v'] r IH]; simpl; [by intros _ ?%elem_of_nil |].
  intros [Hn Hd]%NoDup_cons [[= -> ->] | Hin]%elem_of_cons.
  - by rewrite decide_True.
  - rewrite decide_False; [by apply IH |].
    intros ->. apply Hn. apply list_elem_of_In, in_map_iff. exists (k, c).
    split; [done |]. by apply list_elem_of_In.
Qed.

Lemma Map_delete_keeps k kv r : kv ∈ r → kv.1 ≠ k → kv ∈ Map_delete k r.
Proof.
  induction r as [| [k' v'] r IH]; simpl; [by intros ?%elem_of_nil |].
  intros [-> | Hin]%elem_of_cons Hne; simpl in *.
  - rewrite decide_False by done. left.
  - destruct (decide (k' = k)); [by apply IH | right; by apply IH].
Qed.

Lemma Map_delete_NoDup k r : NoDup (map fst r) → NoDup (map fst (Map_delete k r)).
Proof.
  induction r as [| [k' v'] r IH]; simpl; [done |].
  intros [Hn Hd]%NoDup_cons. destruct (decide (k' = k)); [by apply IH |].
  simpl. apply NoDup_cons. split; [| by apply IH].
  intros Hin. apply Hn.
  apply list_elem_of_In, in_map_iff in Hin as [kv [Hk Hin]].
  apply list_elem_of_In, elem_of_Map_delete in Hin as [Hin _].
  apply list_elem_of_In, in_map_iff. exists kv. split; [done |].
  by apply list_elem_of_In.
Qed.

Lemma Map_delete_length k c r :
  NoDup (map fst r) → (k, c) ∈ r → S (length (Map_delete k r)) = length r.
Proof.
  induction r as [| [k' v'] r IH]; simpl; [by intros _ ?%elem_of_nil |].
  intros [Hn Hd]%NoDup_cons Hin. destruct (decide (k' = k)) as [-> | Hne].
  - f_equal. clear IH Hin Hd. induction r as [| [k2 v2] r IH]; simpl; [done |].
    simpl in Hn. apply not_elem_of_cons in Hn as [Hne Hn].
    rewrite decide_False by done. simpl. by rewrite IH.
  - simpl. f_equal. apply IH; [done |].
    apply elem_of_cons in Hin as [[= ? ?] | Hin]; [congruence | done].
Qed.

(** [registry_ok] only looks at the registry, the counter and the
    number of clients, and survives when the last two grow. *)
Lemma registry_ok_mono m m' :
  connections m' = connections m →
  connectionCounter m ≤ connectionCounter m' → (clients m ≤ clients m')%nat →
  registry_ok m → registry_ok m'.
Proof.
  intros Hc Hn Hcl [H1 H2 H3 H4]. split; rewrite ?Hc; try done.
  intros k c Hin. destruct (H2 k c Hin) as (? & ? & ? & now & n & ? & ?).
  repeat split; try done; [lia |]. exists now, n. split; [done | lia].
Qed.

Lemma registry_ok_remove m r r' :
  connections m = JSMap r → NoDup (map fst r') → (∀ kv, kv ∈ r' → kv ∈ r) →
  registry_ok m → registry_ok (with_connections (JSMap r') m).
Proof.
  intros Hr Hd Hsub [H1 H2 H3 H4]. rewrite Hr in *. simpl in *.
  split; simpl; eauto.
Qed.

Lemma scan_None_no_target nm (r : list (string * SSHConnection)) k c :
  (∀ k c, (k, c) ∈ r → connected c = true) →
  scan nm (map snd r) = None → (k, c) ∈ r → server_name c ≠ nm.
Proof.
  intros Hconn Hs Hin Hn.
  assert (c ∈ map snd r) as Hc.
  { apply list_elem_of_In, in_map_iff. exists (k, c). split; [done |].
    by apply list_elem_of_In. }
  pose proof (scan_None _ _ _ Hs Hc Hn) as Hf.
  rewrite (Hconn _ _ Hin) in Hf. done.
Qed.

(** What one [connect] does to the registry, the counter and the
    clients: nothing to the registry, or one session more, stored under
    the identifier made from the counter, on the client just created,
    for a target that had no session. *)
Lemma connect_effect e target m :
  let m' := fst (connect e target m) in
  (connections m' = connections m ∧
   connectionCounter m ≤ connectionCounter m' ∧ (clients m ≤ clients m')%nat ∧
   (∀ c, snd (connect e target m) = Resolved c →
      m' = m ∧ scan (server_name c) (values (connections m)) = Some c)) ∨
  (∃ r c,
     connections m = JSMap r ∧ scan (server_name c) (map snd r) = None ∧
     snd (connect e target m) = Resolved c ∧
     connections m' = JSMap (Map_set (id c) c r) ∧
     id c = connection_id_of (id_clock e) (connectionCounter m) ∧
     connected c = true ∧ client c = clients m ∧
     connectionCounter m' = connectionCounter m + 1 ∧ clients m' = S (clients m)).
Proof.
  unfold connect.
  destruct (or_else target _) as [nm |]; [| left; simpl; by repeat split].
  destruct (truthy nm); simpl; [| left; by repeat split].
  destruct (getServer nm _) as [config |]; [| left; by repeat split].
  destruct (scan nm _) as [conn |] eqn:Es.
  { left. simpl. split; [done |]. split; [done |]. split; [done |].
    intros c [= <-]. split; [done |].
    by destruct (scan_Some _ _ _ Es) as (_ & -> & _). }
  unfold establish. simpl.
  destruct (connectConfig_of e config) as [cfg | err];
    [| left; simpl; repeat split; (lia || done)].
  destruct (answer e); simpl; try (left; simpl; repeat split; (lia || done)).
  unfold on_ready. simpl.
  destruct (connections m) as [l | r] eqn:Er; simpl.
  - left. simpl. repeat split; (lia || done).
  - right. eexists r, _. simpl. repeat split; done.
Qed.

Lemma connect_registry_ok e target m :
  registry_ok m → registry_ok (fst (connect e target m)).
Proof.
  intros Hok. destruct (connect_effect e target m) as
    [(Hc & Hn & Hcl & _) |
     (r & c & Hr & Hs & _ & Hc' & Hid & Hconn & Hcl & Hn' & Hcl')].
  { by eapply registry_ok_mono. }
  destruct Hok as [H1 H2 H3 H4]. rewrite Hr in *. simpl in *.
  destruct H1 as (r0 & [= <-] & Hd).
  assert (id c ∉ map fst r) as Hfresh.
  { intros Hin. apply list_elem_of_In, in_map_iff in Hin as [[k c0] [Hk Hin]].
    simpl in Hk. subst k. apply list_elem_of_In in Hin.
    destruct (H2 _ _ Hin) as (_ & _ & _ & now & n & Hk & Hlt).
    rewrite Hid in Hk. apply connection_id_of_inj in Hk as [_ <-]. lia. }
  rewrite (Map_set_fresh _ _ _ Hfresh) in Hc'.
  split; rewrite Hc'; simpl.
  - eexists. split; [done |]. rewrite map_app. simpl.
    apply NoDup_app. split; [done |]. split; [| apply NoDup_singleton].
    intros k Hk Hk'. apply list_elem_of_singleton in Hk'. by subst.
  - intros k c0 [Hin | [= -> ->]%list_elem_of_singleton]%elem_of_app.
    + destruct (H2 _ _ Hin) as (? & ? & ? & now & n & ? & ?).
      repeat split; try done; [lia |]. exists now, n. split; [done | lia].
    + repeat split; try done; [lia |]. eexists _, _. split; [exact Hid | lia].
  - assert (∀ k0 c0, (k0, c0) ∈ r → server_name c0 ≠ server_name c) as Hnew.
    { intros k0 c0 Hin. eapply scan_None_no_target; [| exact Hs | exact Hin].
      intros k' c' Hin'. by destruct (H2 _ _ Hin') as (_ & ? & _). }
    intros k1 c1 k2 c2 [Hi1 | [= -> ->]%list_elem_of_singleton]%elem_of_app
                       [Hi2 | [= -> ->]%list_elem_of_singleton]%elem_of_app Hsn;
      try done.
    + by eapply H3.
    + by destruct (Hnew _ _ Hi1).
    + by destruct (Hnew _ _ Hi2).
  - intros k1 c1 k2 c2 [Hi1 | [= -> ->]%list_elem_of_singleton]%elem_of_app
                       [Hi2 | [= -> ->]%list_elem_of_singleton]%elem_of_app Hcl2;
      try done.
    + by eapply H4.
    + destruct (H2 _ _ Hi1) as (_ & _ & ? & _). lia.
    + destruct (H2 _ _ Hi2) as (_ & _ & ? & _). lia.
Qed.

Lemma registry_ok_empty m : connections m = JSMap [] → registry_ok m.
Proof.
  intros Hc. split; rewrite Hc; simpl.
  - eexists. split; [done | apply NoDup_nil_2].
  - by intros k c ?%elem_of_nil.
  - by intros k1 c1 k2 c2 ?%elem_of_nil.
  - by intros k1 c1 k2 c2 ?%elem_of_nil.
Qed.

Lemma disconnect_loop_fields todo : ∀ m n,
  connectionCounter (fst (disconnect_loop todo m n)) = connectionCounter m ∧
  clients (fst (disconnect_loop todo m n)) = clients m ∧
  configManager (fst (disconnect_loop todo m n)) = configManager m.
Proof.
  induction todo as [| [k v] todo IH]; intros m n; simpl; [done |].
  destruct (connections m) as [l | r]; simpl; [done |].
  destruct (IH (with_connections (JSMap (Map_delete k r))
                  (with_action (ClientEnd (client v)) m)) (S n)) as (-> & -> & ->).
  done.
Qed.

Lemma disconnect_registry_ok cid m :
  registry_ok m → registry_ok (fst (disconnect cid m)).
Proof.
  intros Hok. destruct (ok_map m Hok) as (r & Hr & Hd).
  assert (registry_ok (fst (disconnect_loop (entries (connections m)) m 0%nat)))
    as Hall.
  { rewrite Hr. simpl.
    destruct (disconnect_loop_Map r m r 0%nat Hr) as (m' & He & Hc & _).
    - intros kv Hin. apply list_elem_of_In, in_map_iff. exists kv.
      split; [done |]. by apply list_elem_of_In.
    - rewrite He. simpl. by apply registry_ok_empty. }
  unfold disconnect. destruct cid as [cid |]; [| exact Hall].
  destruct (truthy cid); [| exact Hall].
  rewrite Hr. simpl. destruct (Map_get cid r) as [conn |] eqn:Eg; [| done].
  simpl. rewrite Hr. simpl.
  apply (registry_ok_remove (with_action (ClientEnd (client conn)) m) r);
    [done | by apply Map_delete_NoDup | |].
  - intros kv Hin. by apply elem_of_Map_delete in Hin as [? _].
  - eapply registry_ok_mono; [| | | exact Hok]; simpl; (done || lia).
Qed.

Lemma executeCommand_fields e target command timeout m :
  let m1 := fst (connect (conn_env e) (Some target) m) in
  let m2 := fst (executeCommand e target command timeout m) in
  connections m2 = connections m1 ∧ connectionCounter m2 = connectionCounter m1 ∧
  clients m2 = clients m1 ∧ configManager m2 = configManager m1.
Proof.
  unfold executeCommand, executeCommand_closure, run_exec.
  destruct (connect (conn_env e) (Some target) m) as [m1 [c | err |]]; simpl;
    [| done | done].
  destruct (exec_throws e); simpl; done.
Qed.

Lemma run_call_registry_ok c m : registry_ok m → registry_ok (run_call c m).
Proof.
  intros Hok. destruct c as [e target | cid | e target command timeout | o]; simpl.
  - by apply connect_registry_ok.
  - by apply disconnect_registry_ok.
  - destruct (executeCommand_fields e target command timeout m) as (Hc & Hn & Hcl & _).
    eapply registry_ok_mono; [exact Hc | lia | lia |].
    by apply connect_registry_ok.
  - eapply registry_ok_mono; [| | | exact Hok]; simpl; (done || lia).
Qed.

Lemma run_calls_registry_ok cs : ∀ m, registry_ok m → registry_ok (run_calls cs m).
Proof.
  induction cs as [| c cs IH]; intros m Hm; [done |].
  apply IH. by apply run_call_registry_ok.
Qed.


Lemma fresh_id now m r :
  registry_ok m → connections m = JSMap r →
  connection_id_of now (connectionCounter m) ∉ map fst r.
Proof.
  intros Hok Hr Hin.
  apply list_elem_of_In, in_map_iff in Hin as [[k c0] [Hk Hin]].
  simpl in Hk. subst k. apply list_elem_of_In in Hin.
  destruct (ok_entry m Hok (connection_id_of now (connectionCounter m)) c0)
    as (_ & _ & _ & now' & n & Hk & Hlt); [by rewrite Hr |].
  apply connection_id_of_inj in Hk as [_ <-]. lia.
Qed.

Lemma Map_get_None k r : k ∉ map fst r → Map_get k r = None.
Proof.
  induction r as [| [k' v'] r IH]; simpl; [done |].
  intros [Hne Hn]%not_elem_of_cons. rewrite decide_False by done. by apply IH.
Qed.

(** X12. On a well-formed registry, a connect that resolves for a
    target that had no connected session adds exactly one entry, at the
    end of the registry, under an identifier no entry had: the sessions
    that were registered are untouched and the total of getStatus grows
    by one. *)
Theorem connect_registers_one_session (e : connect_env) (target : option string)
    (m m' : SSHConnectionManager.t) (c : SSHConnection) :
  registry_ok m →
  connect e target m = (m', Resolved c) →
  getConnection (server_name c) m = None →
  ∃ r, connections m = JSMap r ∧
       connections m' = JSMap (r ++ [(id c, c)]) ∧
       Map_get (id c) r = None ∧
       total (getStatus m') = Some (S (length r)) ∧
       total (getStatus m) = Some (length r).
Proof.
  intros Hok He Hg.
  destruct (connect_effect e target m) as
    [(_ & _ & _ & Hres) | (r & c' & Hr & Hs & Hres & Hc' & Hid & _)];
    rewrite He in *; simpl in *.
  - destruct (Hres c eq_refl) as [_ Hs]. unfold getConnection in Hg. congruence.
  - injection Hres as <-. exists r.
    pose proof (fresh_id (id_clock e) m r Hok Hr) as Hf. rewrite <- Hid in Hf.
    rewrite (Map_set_fresh _ _ _ Hf) in Hc'.
    split; [done |]. split; [done |]. split; [by apply Map_get_None |].
    unfold getStatus. rewrite Hc', Hr. simpl. rewrite length_app. simpl.
    split; f_equal; lia.
Qed.

Lemma scan_None_intro target l :
  (∀ x, x ∈ l → server_name x = target → connected x = false) →
  scan target l = None.
Proof.
  induction l as [| y l IH]; intros H; simpl; [done |].
  destruct (bool_decide (server_name y = target) && connected y) eqn:E.
  - apply andb_prop in E as [E1%bool_decide_eq_true E2].
    rewrite (H y (list_elem_of_here _ _) E1) in E2. done.
  - apply IH. intros x Hin. apply H. by right.
Qed.

Lemma elem_of_values_Map c (r : list (string * SSHConnection)) :
  c ∈ map snd r → ∃ k, (k, c) ∈ r.
Proof.
  intros Hin. apply list_elem_of_In, in_map_iff in Hin as [[k c'] [Hc Hin]].
  simpl in Hc. subst. exists k. by apply list_elem_of_In.
Qed.

(** X13. On a well-formed registry, after disconnect of a registered
    id the target of that session has no connected session, so the
    registry cannot serve it again: whatever session a later connect
    resolves with has another id and another client. *)
Theorem disconnect_then_connect_is_fresh (k : string) (c : SSHConnection)
    (m : SSHConnectionManager.t) :
  registry_ok m → (k, c) ∈ entries (connections m) →
  getConnection (server_name c) (fst (disconnect (Some k) m)) = None ∧
  (∀ e target m2 c2,
     connect e target (fst (disconnect (Some k) m)) = (m2, Resolved c2) →
     id c2 ≠ k ∧ client c2 ≠ client c).
Proof.
  intros Hok Hin. destruct (ok_map m Hok) as (r & Hr & Hd).
  pose proof (disconnect_registry_ok (Some k) m Hok) as Hok1.
  rewrite Hr in Hin. simpl in Hin.
  destruct (ok_entry m Hok k c) as (_ & _ & Hcl & now & n & Hk & Hlt);
    [by rewrite Hr |].
  assert (truthy k = true) as Ht by (rewrite Hk; apply connection_id_of_truthy).
  destruct (disconnect_registered k c r m Ht Hr (Map_get_elem _ _ _ Hd Hin))
    as (Hdis & _ & _).
  rewrite Hdis in *. simpl in *.
  set (m1 := with_connections (JSMap (Map_delete k r))
               (with_action (ClientEnd (client c)) m)) in *.
  assert (∀ k2 c2, (k2, c2) ∈ Map_delete k r →
            k2 ≠ k ∧ id c2 = k2 ∧ client c2 ≠ client c ∧
            server_name c2 ≠ server_name c) as Hrest.
  { intros k2 c2 [Hin2 Hne]%elem_of_Map_delete. simpl in Hne.
    destruct (ok_entry m Hok k2 c2) as (Hid2 & _); [by rewrite Hr |].
    repeat split; try done.
    - intros Hc. apply Hne. eapply (ok_client m Hok); rewrite ?Hr; simpl; eauto.
    - intros Hs. apply Hne. eapply (ok_target m Hok); rewrite ?Hr; simpl; eauto. }
  split.
  - unfold getConnection. simpl. apply scan_None_intro.
    intros x [k2 Hx]%elem_of_values_Map Hs.
    by destruct (Hrest _ _ Hx) as (_ & _ & _ & ?).
  - intros e target m2 c2 He.
    destruct (connect_effect e target m1) as
      [(_ & _ & _ & Hres) | (r1 & c' & Hr1 & _ & Hres & _ & Hid & _ & Hcl2 & _)];
      rewrite He in *; simpl in *.
    + destruct (Hres c2 eq_refl) as [_ Hs].
      apply scan_Some in Hs as [[k2 Hx]%elem_of_values_Map _].
      destruct (Hrest _ _ Hx) as (? & ? & ? & _). split; congruence.
    + injection Hres as <-. split.
      * rewrite Hid, Hk. intros [_ E]%connection_id_of_inj. lia.
      * rewrite Hcl2. lia.
Qed.

(** X14. On a well-formed registry, disconnect of a registered id ends
    the transport of that session and of no other, removes that entry
    and no other, returns 1 and lowers the total of getStatus by one;
    the same call made again returns 0 and changes nothing. *)
Theorem disconnect_one_session (k : string) (c : SSHConnection)
    (m : SSHConnectionManager.t) :
  registry_ok m → (k, c) ∈ entries (connections m) →
  ∃ m1 r,
    connections m = JSMap r ∧
    disconnect (Some k) m = (m1, Returned 1%nat) ∧
    actions m1 = (actions m ++ [ClientEnd (client c)])%list ∧
    connections m1 = JSMap (Map_delete k r) ∧
    (∀ kv, kv ∈ Map_delete k r ↔ kv ∈ r ∧ kv.1 ≠ k) ∧
    total (getStatus m) = Some (S (length (Map_delete k r))) ∧
    total (getStatus m1) = Some (length (Map_delete k r)) ∧
    disconnect (Some k) m1 = (m1, Returned 0%nat).
Proof.
  intros Hok Hin. destruct (ok_map m Hok) as (r & Hr & Hd).
  rewrite Hr in Hin. simpl in Hin.
  destruct (ok_entry m Hok k c) as (_ & _ & _ & now & n & Hk & _);
    [by rewrite Hr |].
  assert (truthy k = true) as Ht by (rewrite Hk; apply connection_id_of_truthy).
  destruct (disconnect_registered k c r m Ht Hr (Map_get_elem _ _ _ Hd Hin))
    as (Hdis & Hgone & _).
  eexists _, r. split; [done |]. split; [exact Hdis |]. simpl.
  split; [done |]. split; [done |]. split.
  { intros kv. split; [apply elem_of_Map_delete |].
    intros [? ?]. by apply Map_delete_keeps. }
  unfold getStatus. rewrite Hr. simpl.
  split; [by rewrite (Map_delete_length k c r Hd Hin) |]. split; [done |].
  by rewrite Ht, Hgone.
Qed.

(** X15. On a [Map], disconnect without an id ends the transport of
    every session, once each and in the order of registration, empties
    the registry and returns the number of sessions it held; after it
    getStatus reports 0, no target has a session, and the same call
    made again returns 0 and changes nothing. *)
Theorem disconnect_everything (r : list (string * SSHConnection))
    (m : SSHConnectionManager.t) :
  connections m = JSMap r →
  ∃ m1,
    disconnect None m = (m1, Returned (length r)) ∧
    connections m1 = JSMap [] ∧
    actions m1 = (actions m ++ map (fun kv => ClientEnd (client kv.2)) r)%list ∧
    total (getStatus m1) = Some 0%nat ∧
    (∀ target, getConnection target m1 = None) ∧
    disconnect None m1 = (m1, Returned 0%nat).
Proof.
  intros Hr. destruct (disconnect_all r m Hr) as (m1 & Hd & Hc & Ha & Ht).
  exists m1. repeat split; try done.
  - intros target. unfold getConnection. by rewrite Hc.
  - unfold disconnect. by rewrite Hc.
Qed.

(** X16. getConnection returns the first registered session of the
    target that has its connected flag set: the sessions before it are
    of another target or not connected; it returns nothing exactly when
    no registered session of the target is connected. *)
Theorem getConnection_first_match (target : string) (m : SSHConnectionManager.t)
    (c : SSHConnection) :
  (getConnection target m = Some c ↔
     ∃ l1 l2, values (connections m) = (l1 ++ c :: l2)%list ∧
              server_name c = target ∧ connected c = true ∧
              ∀ x, x ∈ l1 → server_name x = target → connected x = false) ∧
  (getConnection target m = None ↔
     ∀ x, x ∈ values (connections m) → server_name x = target → connected x = false).
Proof.
  unfold getConnection. generalize (values (connections m)) as l. intros l. split.
  - revert c. induction l as [| y l IH]; intros c; simpl.
    + split; [done |]. intros (l1 & l2 & H & _). by destruct l1.
    + destruct (bool_decide (server_name y = target) && connected y) eqn:E.
      * apply andb_prop in E as [E1%bool_decide_eq_true E2]. split.
        -- intros [= <-]. exists [], l. repeat split; try done.
           by intros x ?%elem_of_nil.
        -- intros (l1 & l2 & H & Hn & Hc & Hl1). destruct l1 as [| z l1].
           ++ by injection H as -> _.
           ++ injection H as <- _.
              rewrite (Hl1 y (list_elem_of_here _ _) E1) in E2. done.
      * rewrite IH. split.
        -- intros (l1 & l2 & -> & Hn & Hc & Hl1). exists (y :: l1), l2.
           repeat split; try done.
           intros x [-> | Hin]%elem_of_cons Hx; [| by apply Hl1].
           rewrite bool_decide_eq_true_2 in E by done. simpl in E. done.
        -- intros (l1 & l2 & H & Hn & Hc & Hl1). destruct l1 as [| z l1].
           ++ injection H as -> _. rewrite bool_decide_eq_true_2, Hc in E by done.
              done.
           ++ injection H as <- ->. exists l1, l2. repeat split; try done.
              intros x Hin. apply Hl1. by right.
  - split; [intros H x; by apply scan_None | apply scan_None_intro].
Qed.

End Registry.

(** ** executeCommand and connect: results, failures and footprint *)

Section Execution.

Import ServerConfigManager SSHConnectionManager Calls.

(** The timer callback touches neither the accumulators nor the
    listeners. *)
Lemma fire_due_view tie T now st :
  acc_stdout (fire_due tie T now st) = acc_stdout st ∧
  acc_stderr (fire_due tie T now st) = acc_stderr st ∧
  listening (fire_due tie T now st) = listening st ∧
  (promise (fire_due tie T now st) = promise st ∨
   promise (fire_due tie T now st) = Rejected (CommandTimeoutError T)).
Proof.
  unfold fire_due. destruct (timer_due tie now st); [| by auto].
  unfold on_timer, reject, cleanup.
  destruct (timer st); simpl; destruct (promise st) eqn:E; simpl;
    repeat split; auto.
Qed.

Lemma expire_Resolved T st r :
  promise (expire T st) = Resolved r → promise st = Resolved r.
Proof.
  unfold expire, on_timer, reject, cleanup.
  destruct (timer st); [| done]. destruct (timer_live st); [| done].
  simpl. destruct (promise st) eqn:E; simpl; congruence.
Qed.

Lemma on_event_start_failure s now d st :
  promise st = Pending →
  promise (on_event s now (ExecCallback (Some d)) st) = Rejected (TransportError d).
Proof.
  intros Hp. simpl. unfold reject, cleanup.
  destruct (timer st); simpl; by rewrite Hp.
Qed.

(** A promise that ends resolved was resolved by the close of the
    stream, with what the listeners had received until then. *)
Lemma deliver_Resolved tie T s evs : ∀ st r,
  promise st = Pending →
  promise (deliver tie T s evs st) = Resolved r →
  ∃ pre tc code post,
    evs = (pre ++ (tc, StreamClose code) :: post)%list ∧
    stdout r = acc_stdout st +:+ stdout_of (heard (listening st) pre) ∧
    stderr r = acc_stderr st +:+ stderr_of (heard (listening st) pre) ∧
    exit_code r = code ∧ duration r = tc - s.
Proof.
  induction evs as [| [now ev] evs IH]; intros st r Hp Hr.
  { simpl in Hr. congruence. }
  cbn [deliver] in Hr.
  destruct (fire_due_view tie T now st) as (Ho & He & Hl & [Hq | Hq]).
  2: { rewrite promise_deliver in Hr.
       - rewrite promise_on_event in Hr; congruence.
       - rewrite promise_on_event; congruence. }
  set (st1 := fire_due tie T now st) in *. rewrite Hp in Hq.
  destruct ev as [[d |] | data | data | code].
  - pose proof (on_event_start_failure s now d st1 Hq) as Hc.
    rewrite promise_deliver in Hr by (rewrite Hc; done). congruence.
  - assert (promise (on_event s now (ExecCallback None) st1) = Pending) as Hp2
      by done.
    destruct (IH _ r Hp2 Hr) as (pre & tc & code & post & -> & H1 & H2 & H3 & H4).
    exists ((now, ExecCallback None) :: pre), tc, code, post.
    simpl in *. by rewrite Ho, He in *.
  - destruct (listening st) eqn:El.
    + assert (promise (on_event s now (StdoutData data) st1) = Pending) as Hp2
        by (simpl; rewrite Hl; done).
      destruct (IH _ r Hp2 Hr) as (pre & tc & code & post & -> & H1 & H2 & H3 & H4).
      exists ((now, StdoutData data) :: pre), tc, code, post.
      simpl in H1, H2. rewrite Hl in H1, H2. simpl in H1, H2.
      rewrite Ho, He in *. simpl. by rewrite H1, H2, append_assoc.
    + assert (on_event s now (StdoutData data) st1 = st1) as Hsame
        by (simpl; by rewrite Hl).
      rewrite Hsame in Hr.
      destruct (IH _ r Hq Hr) as (pre & tc & code & post & -> & H1 & H2 & H3 & H4).
      exists ((now, StdoutData data) :: pre), tc, code, post.
      rewrite Ho, He, Hl in *. done.
  - destruct (listening st) eqn:El.
    + assert (promise (on_event s now (StderrData data) st1) = Pending) as Hp2
        by (simpl; rewrite Hl; done).
      destruct (IH _ r Hp2 Hr) as (pre & tc & code & post & -> & H1 & H2 & H3 & H4).
      exists ((now, StderrData data) :: pre), tc, code, post.
      simpl in H1, H2. rewrite Hl in H1, H2. simpl in H1, H2.
      rewrite Ho, He in *. simpl. by rewrite H1, H2, append_assoc.
    + assert (on_event s now (StderrData data) st1 = st1) as Hsame
        by (simpl; by rewrite Hl).
      rewrite Hsame in Hr.
      destruct (IH _ r Hq Hr) as (pre & tc & code & post & -> & H1 & H2 & H3 & H4).
      exists ((now, StderrData data) :: pre), tc, code, post.
      rewrite Ho, He, Hl in *. done.
  - destruct (listening st) eqn:El.
    + pose proof (on_event_close s now code st1 Hq Hl) as Hc.
      rewrite promise_deliver in Hr by (rewrite Hc; done).
      rewrite Hc in Hr. injection Hr as <-.
      exists [], now, code, evs. simpl. rewrite Ho, He, !append_empty_r. done.
    + assert (on_event s now (StreamClose code) st1 = st1) as Hsame
        by (simpl; by rewrite Hl).
      rewrite Hsame in Hr.
      destruct (IH _ r Hq Hr) as (pre & tc & code' & post & -> & H1 & H2 & H3 & H4).
      exists ((now, StreamClose code) :: pre), tc, code', post.
      rewrite Ho, He, Hl in *. done.
Qed.

(** X17. Whenever executeCommand resolves, its result was assembled at
    a close of the stream that the transport delivered: [exit_code] is
    the code of that close, [duration] is the clock at that close minus
    the clock at the start of the call, and [stdout] and [stderr] are
    the chunks the listeners received before it, each stream in its
    arrival order. *)
Theorem executeCommand_result_provenance (e : exec_env) (target command : string)
    (timeout : option Z) (m m' : SSHConnectionManager.t) (r : CommandResult) :
  executeCommand e target command timeout m = (m', Resolved r) →
  ∃ pre tc code post,
    events e = (pre ++ (tc, StreamClose code) :: post)%list ∧
    stdout r = stdout_of (heard false pre) ∧
    stderr r = stderr_of (heard false pre) ∧
    exit_code r = code ∧
    duration r = tc - start_clock e.
Proof.
  unfold executeCommand, executeCommand_closure, run_exec.
  destruct (connect (conn_env e) (Some target) m) as [m1 [c | err |]];
    [| done | done].
  destruct (exec_throws e) as [d |]; simpl.
  - intros [= _ Hr]. apply expire_Resolved in Hr. done.
  - intros [= _ Hr]. apply expire_Resolved in Hr.
    apply deliver_Resolved in Hr; [| done].
    destruct Hr as (pre & tc & code & post & H0 & H1 & H2 & H3 & H4).
    exists pre, tc, code, post. simpl in H1, H2.
    by rewrite append_empty_l in H1, H2.
Qed.

(** *** Deliveries that do not settle the promise *)

Lemma timer_due_same tie now st st' :
  timer st' = timer st → timer_live st' = timer_live st →
  timer_due tie now st' = timer_due tie now st.
Proof. intros H1 H2. unfold timer_due. by rewrite H1, H2. Qed.

Lemma fire_due_not_due tie T now st :
  timer_due tie now st = false → fire_due tie T now st = st.
Proof. intros H. unfold fire_due. by rewrite H. Qed.

Lemma deliver_quiet tie T s pre : ∀ st,
  promise st = Pending →
  forallb (fun p => negb (settling (snd p))) pre = true →
  (∀ p, p ∈ pre → timer_due tie (fst p) st = false) →
  promise (deliver tie T s pre st) = Pending ∧
  timer (deliver tie T s pre st) = timer st ∧
  timer_live (deliver tie T s pre st) = timer_live st ∧
  acc_stdout (deliver tie T s pre st)
    = acc_stdout st +:+ stdout_of (heard (listening st) pre) ∧
  acc_stderr (deliver tie T s pre st)
    = acc_stderr st +:+ stderr_of (heard (listening st) pre) ∧
  (listening st = true ∨ (∃ t0, (t0, ExecCallback None) ∈ pre) →
   listening (deliver tie T s pre st) = true).
Proof.
  induction pre as [| [now ev] pre IH]; intros st Hp Hq Hd.
  { simpl. rewrite !append_empty_r. repeat split; try done.
    intros [? | [t0 ?%elem_of_nil]]; done. }
  simpl in Hq. apply andb_prop in Hq as [Hq1 Hq2].
  cbn [deliver].
  rewrite (fire_due_not_due tie T now st) by (apply (Hd (now, ev)); left).
  set (st2 := on_event s now ev st).
  assert (promise st2 = Pending ∧ timer st2 = timer st ∧
          timer_live st2 = timer_live st ∧
          acc_stdout st2 +:+ stdout_of (heard (listening st2) pre)
            = acc_stdout st +:+ stdout_of (heard (listening st) ((now, ev) :: pre)) ∧
          acc_stderr st2 +:+ stderr_of (heard (listening st2) pre)
            = acc_stderr st +:+ stderr_of (heard (listening st) ((now, ev) :: pre)) ∧
          (listening st = true ∨ ev = ExecCallback None → listening st2 = true))
    as (H1 & H2 & H3 & H4 & H5 & H6).
  { unfold st2. destruct ev as [[d |] | data | data | code]; simpl in *; try done;
      destruct (listening st) eqn:El; simpl; rewrite ?El, ?append_assoc;
      repeat split; try done;
      try (intros [? | ?]; done); try (intros; done). }
  destruct (IH st2 H1 Hq2) as (I1 & I2 & I3 & I4 & I5 & I6).
  { intros p Hin. rewrite (timer_due_same tie (fst p) st st2 H2 H3).
    apply Hd. by right. }
  rewrite I1, I2, I3, I4, I5, H2, H3, H4, H5. repeat split; try done.
  intros [Hl | [t0 [[= <- <-] | Hin]%elem_of_cons]]; apply I6; eauto.
Qed.

Lemma arm_not_due tie armed T now st :
  timer st = timer (arm armed T) →
  T ≤ 0 ∨ (T * 1000 ≤ TIMEOUT_MAX ∧ now < armed + T * 1000) →
  timer_due tie now st = false.
Proof.
  intros Ht H. unfold timer_due. rewrite Ht. unfold arm. simpl.
  destruct (0 <? T) eqn:E; [| done].
  destruct H as [? | [Hmax Hlt]]; [lia |].
  rewrite timer_delay_in_range by lia.
  replace (if tie then armed + T * 1000 <=? now else armed + T * 1000 <? now)
    with false by (destruct tie; lia).
  apply andb_false_r.
Qed.



(** *** What a call does to the transports *)

Local Ltac counted := unfold count; simpl; repeat split; (done || lia).

Lemma connect_actions e target m :
  ∃ added,
    actions (fst (connect e target m)) = (actions m ++ added)%list ∧
    (count is_connect added ≤ 1)%nat ∧
    count is_exec added = 0%nat ∧ count is_end added = 0%nat.
Proof.
  assert (∀ m0 : SSHConnectionManager.t,
            ∃ added, actions m0 = (actions m0 ++ added)%list ∧
                     (count is_connect added ≤ 1)%nat ∧
                     count is_exec added = 0%nat ∧ count is_end added = 0%nat)
    as Hnone.
  { intros m0. exists []. rewrite app_nil_r. counted. }
  unfold connect.
  destruct (or_else target _) as [nm |]; [| apply Hnone].
  destruct (truthy nm); simpl; [| apply Hnone].
  destruct (getServer nm _) as [config |]; [| apply Hnone].
  destruct (scan nm _) as [conn |]; [apply Hnone |].
  unfold establish. simpl.
  destruct (connectConfig_of e config) as [cfg | err]; [| apply (Hnone m)].
  destruct (answer e); simpl.
  - unfold on_ready. simpl. destruct (connections m); simpl.
    + eexists [_; _]. rewrite <- app_assoc. counted.
    + eexists [_]. counted.
  - eexists [_]. counted.
  - apply (Hnone m).
  - eexists [_]. counted.
Qed.

Lemma count_app f l1 l2 : count f (l1 ++ l2) = (count f l1 + count f l2)%nat.
Proof. unfold count. by rewrite List.filter_app, length_app. Qed.

(** X19. One executeCommand makes one attempt: to what had been done to
    the transports it adds at most one connect and at most one exec
    request, and it never ends a transport.  The registry it leaves is
    the one its connect step left, whether the command completed, timed
    out or failed; and when the connect step does not give a session,
    no exec request is made and the call does not resolve. *)
Theorem executeCommand_footprint (e : exec_env) (target command : string)
    (timeout : option Z) (m : SSHConnectionManager.t) :
  (∃ added,
     actions (fst (executeCommand e target command timeout m))
       = (actions m ++ added)%list ∧
     (count is_connect added ≤ 1)%nat ∧ (count is_exec added ≤ 1)%nat ∧
     count is_end added = 0%nat ∧
     ((∀ c, snd (connect (conn_env e) (Some target) m) ≠ Resolved c) →
        count is_exec added = 0%nat)) ∧
  connections (fst (executeCommand e target command timeout m))
    = connections (fst (connect (conn_env e) (Some target) m)) ∧
  ((∀ c, snd (connect (conn_env e) (Some target) m) ≠ Resolved c) →
     ∀ r, snd (executeCommand e target command timeout m) ≠ Resolved r).
Proof.
  destruct (connect_actions (conn_env e) (Some target) m)
    as (added & Ha & Hc1 & Hc2 & Hc3).
  split; [| split].
  - unfold executeCommand, executeCommand_closure, run_exec.
    destruct (connect (conn_env e) (Some target) m) as [m1 [c | err |]];
      simpl in *.
    + destruct (exec_throws e) as [d |]; simpl.
      * exists added. repeat split; try done; try lia.
      * exists (added ++ [ClientExec (client c) command])%list.
        rewrite Ha, <- app_assoc, !count_app. unfold count at 2 4 6. simpl.
        repeat split; try done; try lia.
        intros H. by destruct (H c).
    + exists added. repeat split; try done; lia.
    + exists added. repeat split; try done; lia.
  - apply executeCommand_fields.
  - intros Hn r. unfold executeCommand, executeCommand_closure.
    destruct (connect (conn_env e) (Some target) m) as [m1 [c | err |]];
      simpl in *; [by destruct (Hn c) | done | done].
Qed.

(** X20. A timeout that is 0 or negative arms no timer.  The call is
    then never rejected with CommandTimeoutError; and once the session
    is obtained and the request made, a command that starts and whose
    stream closes, however late, resolves the call with the chunks
    received, the code of the close and the time since the start of the
    call. *)
Theorem executeCommand_without_timer_waits (e : exec_env)
    (target command : string) (T : Z) (m m1 : SSHConnectionManager.t)
    (c : SSHConnection) (pre post : list (Z * exec_event)) (t0 tc : Z)
    (code : option Z) :
  T ≤ 0 →
  (∀ T', snd (executeCommand e target command (Some T) m)
           ≠ Rejected (CommandTimeoutError T')) ∧
  (connect (conn_env e) (Some target) m = (m1, Resolved c) →
   exec_throws e = None →
   events e = (pre ++ (tc, StreamClose code) :: post)%list →
   forallb (fun p => negb (settling (snd p))) pre = true →
   (t0, ExecCallback None) ∈ pre →
     executeCommand e target command (Some T) m =
       (with_action (ClientExec (client c) command) m1,
        Resolved {| stdout := stdout_of (heard false pre);
                    stderr := stderr_of (heard false pre);
                    exit_code := code; duration := tc - start_clock e |})).
Proof.
  intros HT. split.
  - intros T'. unfold executeCommand, executeCommand_closure. simpl.
    destruct (connect (conn_env e) (Some target) m) as [m' [conn | err |]] eqn:Ec;
      simpl; [| | done].
    + pose proof (run_exec_untimed e conn command T m' HT) as [_ Hp].
      destruct (run_exec e conn command T m') as [m2 st']. simpl in *. apply Hp.
    + intros [= ->]. by eapply connect_not_timeout.
  - intros Hc Hx Hev Hq Hstart.
    unfold executeCommand, executeCommand_closure, run_exec. simpl.
    rewrite Hc, Hx, Hev. f_equal.
    rewrite deliver_app. cbn [deliver].
    set (st0 := arm (armed_clock e) T).
    destruct (deliver_quiet (timer_first e) T (start_clock e) pre st0)
      as (H1 & H2 & H3 & H4 & H5 & H6); [done | done | |].
    { intros p _. apply (arm_not_due _ (armed_clock e) T); [done | by left]. }
    set (st1 := deliver (timer_first e) T (start_clock e) pre st0) in *.
    rewrite (fire_due_not_due _ _ tc st1)
      by (apply (arm_not_due _ (armed_clock e) T); [done | by left]).
    pose proof (on_event_close (start_clock e) tc code st1 H1 (H6 (or_intror (ex_intro _ t0 Hstart))))
      as Hr.
    rewrite H4, H5 in Hr.
    change (acc_stdout st0) with "" in Hr. change (acc_stderr st0) with "" in Hr.
    change (listening st0) with false in Hr. rewrite !append_empty_l in Hr.
    rewrite promise_expire; rewrite promise_deliver; rewrite ?Hr; done.
Qed.

(** X21. When connect has to establish a session (the target is in the
    store and has no connected session) and the key file, if one is
    named, can be read, it calls connect on one new client, once, with
    the host, port and user name of the stored credential and a ready
    timeout of 30000 ms; with the content of the key file and no
    password when [key_path] is non-empty, with the password alone
    otherwise. *)
Theorem connect_opens_one_transport (e : connect_env) (nm : string)
    (config : SSHServerConfig) (m : SSHConnectionManager.t) :
  truthy nm = true →
  getServer nm (configManager m) = Some config →
  getConnection nm m = None →
  (truthy_opt (key_path config) = true → ∃ content, key_file e = ReadOk content) →
  (∀ d, answer e ≠ ConnectThrew d) →
  ∃ cc tail,
    actions (fst (connect e (Some nm) m))
      = (actions m ++ ClientConnect (clients m) cc :: tail)%list ∧
    count is_connect tail = 0%nat ∧
    cc_host cc = host config ∧ cc_port cc = port config ∧
    cc_username cc = username config ∧ cc_readyTimeout cc = 30000 ∧
    (truthy_opt (key_path config) = true →
       ∃ content, key_file e = ReadOk content ∧
                  cc_privateKey cc = Some content ∧ cc_password cc = None) ∧
    (truthy_opt (key_path config) = false →
       cc_privateKey cc = None ∧
       cc_password cc =
         if truthy_opt (password config) then password config else None).
Proof.
  intros Ht Hg Hs Hkey Hthrow. unfold getConnection in Hs.
  unfold connect, or_else. simpl. rewrite Ht. simpl. rewrite Ht, Hg, Hs. simpl.
  unfold establish. simpl. unfold connectConfig_of.
  destruct (truthy_opt (key_path config)) eqn:Ek.
  - destruct (Hkey eq_refl) as [content Hc]. rewrite Hc.
    destruct (answer e) eqn:Ea; simpl.
    + unfold on_ready. simpl. destruct (connections m); simpl.
      * eexists _, [_]. rewrite <- app_assoc. simpl.
        repeat split; try done; eauto.
      * eexists _, []. simpl. repeat split; try done; eauto.
    + eexists _, []. simpl. repeat split; try done; eauto.
    + by destruct (Hthrow diag).
    + eexists _, []. simpl. repeat split; try done; eauto.
  - assert (∃ cc : ConnectConfig,
              (if truthy_opt (password config)
               then Returned {| cc_host := host config; cc_port := port config;
                                cc_username := username config;
                                cc_readyTimeout := 30000; cc_privateKey := None;
                                cc_password := password config |}
               else Returned {| cc_host := host config; cc_port := port config;
                                cc_username := username config;
                                cc_readyTimeout := 30000; cc_privateKey := None;
                                cc_password := None |}) = Returned cc ∧
              cc_host cc = host config ∧ cc_port cc = port config ∧
              cc_username cc = username config ∧ cc_readyTimeout cc = 30000 ∧
              cc_privateKey cc = None ∧
              cc_password cc =
                if truthy_opt (password config) then password config else None)
      as (cc & -> & H1 & H2 & H3 & H4 & H5 & H6).
    { destruct (truthy_opt (password config)); eexists; repeat split. }
    destruct (answer e) eqn:Ea; simpl.
    + unfold on_ready. simpl. destruct (connections m); simpl.
      * exists cc, [ListenerThrew (clients m)
                      (TypeError "this.connections.set is not a function")].
        rewrite <- app_assoc. simpl. repeat split; try done.
      * exists cc, []. simpl. repeat split; try done.
    + exists cc, []. simpl. repeat split; try done.
    + by destruct (Hthrow diag).
    + exists cc, []. simpl. repeat split; try done.
Qed.

(** X22. When connect has to establish a session and the key file
    named by a non-empty [key_path] cannot be read, the call is rejected
    with the error of the file system: no transport is contacted, the
    password is not tried in its place, and the registry is unchanged;
    the identifier made for the attempt is not used again. *)
Theorem connect_unreadable_key (e : connect_env) (nm d : string)
    (config : SSHServerConfig) (m : SSHConnectionManager.t) :
  truthy nm = true →
  getServer nm (configManager m) = Some config →
  getConnection nm m = None →
  truthy_opt (key_path config) = true → key_file e = ReadFails d →
  snd (connect e (Some nm) m) = Rejected (FsError d) ∧
  actions (fst (connect e (Some nm) m)) = actions m ∧
  connections (fst (connect e (Some nm) m)) = connections m ∧
  connectionCounter (fst (connect e (Some nm) m)) = connectionCounter m + 1.
Proof.
  intros Ht Hg Hs Hk Hf. unfold getConnection in Hs.
  unfold connect, or_else. simpl. rewrite Ht. simpl. rewrite Ht, Hg, Hs. simpl.
  unfold establish. simpl. unfold connectConfig_of. by rewrite Hk, Hf.
Qed.

End Execution.

(** ** The further statements at concrete inputs *)

Section MoreInstances.

Import ServerConfigManager SSHConnectionManager ServerConfigQueries Calls.
Import Examples MoreExamples.

Lemma store_ab_default_ok : default_ok store_ab.
Proof. apply run_ops_default_ok, empty_store_default_ok. Qed.


Lemma manager_ab_ok : registry_ok manager_ab.
Proof. apply run_calls_registry_ok, registry_ok_empty. reflexivity. Qed.



(** X3: add and delete "Gateway". *)
Lemma add_then_delete_restores_witness :
  config (fst (deleteServer WriteOk "Gateway"
                 (fst (addServer WriteOk input_gateway store_ab))))
    = config store_ab.
Proof.
  apply (add_then_delete_restores WriteOk WriteOk input_gateway store_ab).
  - exact store_ab_default_ok.
  - vm_compute. reflexivity.
Defined.

(** X5: a set_default that returns, and a sequence on a working disk
    with a rejected operation in it. *)
Lemma returned_operation_is_persisted_witness :
  disk (fst (run_op (set_default "b" WriteOk) store_ab))
    = Some (config (fst (run_op (set_default "b" WriteOk) store_ab))) ∧
  config (reopen (run_ops [add_server input_a WriteOk; add_server input_a WriteOk;
                           delete_server "a" WriteOk] empty_store))
    = config (run_ops [add_server input_a WriteOk; add_server input_a WriteOk;
                       delete_server "a" WriteOk] empty_store).
Proof.
  split.
  - apply (returned_operation_is_persisted (set_default "b" WriteOk) [] store_ab
             (fst (run_op (set_default "b" WriteOk) store_ab)) tt).
    vm_compute. reflexivity.
  - apply (returned_operation_is_persisted (set_default "b" WriteOk)
             [add_server input_a WriteOk; add_server input_a WriteOk;
              delete_server "a" WriteOk] store_ab store_ab tt).
    repeat constructor.
Defined.


(** X7: the listing of the store with "a" (default) and "b". *)
Lemma listServers_lists_the_store_witness :
  length (listServers lower None true store_ab) = 2%nat ∧
  {| entry := make_server input_a; is_default := true |}
    ∈ listServers lower None true store_ab.
Proof.
  pose proof (listServers_lists_the_store lower true store_ab
                (listed store_ab (make_server input_a))
                (listed store_ab (make_server input_a)) "a" (make_server input_a))
    as (_ & H2 & _ & _ & H5).
  split; [rewrite H2; vm_compute; reflexivity |].
  apply H5; [| reflexivity | vm_compute; reflexivity].
  apply (run_ops_names_ok
           [add_server input_a WriteOk; add_server input_b WriteOk;
            set_default "a" WriteOk]), empty_store_names_ok.
Defined.

(** X8: the keyword "B" finds the entry named "b". *)
Lemma listServers_keyword_witness :
  listed (fst (addServer WriteOk {| in_name := "B"; in_host := "h";
                                     in_port := None; in_username := "u";
                                     in_password := None; in_key_path := None;
                                     in_description := None;
                                     in_proxy_command := None |} store_a))
         (make_server {| in_name := "B"; in_host := "h";
                         in_port := None; in_username := "u";
                         in_password := None; in_key_path := None;
                         in_description := None;
                         in_proxy_command := None |})
    ∈ listServers lower (Some "B") true
        (fst (addServer WriteOk {| in_name := "B"; in_host := "h";
                                    in_port := None; in_username := "u";
                                    in_password := None; in_key_path := None;
                                    in_description := None;
                                    in_proxy_command := None |} store_a)).
Proof.
  eapply (listServers_keyword lower "B" true _ (listed store_a (make_server input_a)) "B").
  - reflexivity.
  - vm_compute. reflexivity.
  - reflexivity.
Defined.


(** X12: the second connect of [manager_ab], for "b", on the registry
    that holds the session of "a". *)
Lemma connect_registers_one_session_witness :
  ∃ r, connections manager_a = JSMap r ∧
       connections manager_ab = JSMap (r ++ [("conn_1000_1", session_b)]) ∧
       total (getStatus manager_ab) = Some (S (length r)).
Proof.
  destruct (connect_registers_one_session env_ready_later (Some "b")
              manager_a manager_ab session_b)
    as (r & H1 & H2 & _ & H4 & _).
  - apply (run_calls_registry_ok [CallConnect env_ready (Some "a")]),
      registry_ok_empty. reflexivity.
  - vm_compute. reflexivity.
  - vm_compute. reflexivity.
  - exists r. split; [exact H1 |]. split; [exact H2 | exact H4].
Defined.

(** X13: disconnect of the session of "a", then connect("a") again. *)
Lemma disconnect_then_connect_is_fresh_witness :
  getConnection "a" (fst (disconnect (Some "conn_1000_0") manager_ab)) = None ∧
  snd (connect env_ready (Some "a") (fst (disconnect (Some "conn_1000_0") manager_ab)))
    = Resolved session_a_again ∧
  id session_a_again ≠ "conn_1000_0" ∧ client session_a_again ≠ 0%nat.
Proof.
  destruct (disconnect_then_connect_is_fresh "conn_1000_0" session_a manager_ab)
    as [H1 H2].
  - exact manager_ab_ok.
  - vm_compute. left.
  - split; [exact H1 |]. split; [vm_compute; reflexivity |].
    apply (H2 env_ready (Some "a")
             (fst (connect env_ready (Some "a")
                     (fst (disconnect (Some "conn_1000_0") manager_ab))))).
    vm_compute. reflexivity.
Defined.

(** X14: disconnect of the session of "b". *)
Lemma disconnect_one_session_witness :
  ∃ m1, disconnect (Some "conn_1000_1") manager_ab = (m1, Returned 1%nat) ∧
        actions m1 = (actions manager_ab ++ [ClientEnd 1])%list ∧
        disconnect (Some "conn_1000_1") m1 = (m1, Returned 0%nat).
Proof.
  destruct (disconnect_one_session "conn_1000_1" session_b manager_ab)
    as (m1 & r & _ & H1 & H2 & _ & _ & _ & _ & H3).
  - exact manager_ab_ok.
  - vm_compute. right. left.
  - exists m1. split; [exact H1 |]. split; [exact H2 | exact H3].
Defined.

(** X15: disconnect of everything. *)
Lemma disconnect_everything_witness :
  ∃ m1, disconnect None manager_ab = (m1, Returned 2%nat) ∧
        actions m1 = (actions manager_ab ++ [ClientEnd 0; ClientEnd 1])%list ∧
        total (getStatus m1) = Some 0%nat.
Proof.
  destruct (disconnect_everything
              [("conn_1000_0", session_a); ("conn_1000_1", session_b)] manager_ab)
    as (m1 & H1 & _ & H3 & H4 & _).
  - vm_compute. reflexivity.
  - exists m1. split; [exact H1 |]. split; [exact H3 | exact H4].
Defined.

(** X17 and X20: the long run without a timer. *)
Lemma executeCommand_without_timer_waits_witness :
  executeCommand env_long_run "a" "make" (Some (-1)) (new_compiled store_ab)
    = (with_action (ClientExec 0 "make") manager_a, Resolved result_long_run).
Proof.
  apply (executeCommand_without_timer_waits env_long_run "a" "make" (-1)
           (new_compiled store_ab) manager_a session_a
           [(10, ExecCallback None); (20, StdoutData "a");
            (25, StderrData "e"); (30, StdoutData "b")]
           [(9000001, StdoutData "late")] 10 9000000 None).
  - lia.
  - vm_compute. reflexivity.
  - reflexivity.
  - reflexivity.
  - reflexivity.
  - left.
Defined.

Lemma executeCommand_result_provenance_witness :
  ∃ pre tc code post,
    events env_long_run = (pre ++ (tc, StreamClose code) :: post)%list ∧
    stdout result_long_run = stdout_of (heard false pre) ∧
    stderr result_long_run = stderr_of (heard false pre) ∧
    exit_code result_long_run = code ∧
    duration result_long_run = tc - start_clock env_long_run.
Proof.
  apply (executeCommand_result_provenance env_long_run "a" "make" (Some 0)
           (new_compiled store_ab)
           (with_action (ClientExec 0 "make") manager_a) result_long_run).
  vm_compute. reflexivity.
Defined.


(** X19: after a call that timed out the session is still registered,
    and a call whose connect is refused makes no exec request. *)
Lemma executeCommand_footprint_witness :
  connections (fst (executeCommand env_hangs "a" "tail -f log" (Some 1)
                      (new_compiled store_ab)))
    = JSMap [("conn_1000_0", session_a)] ∧
  actions (fst (executeCommand
                  {| start_clock := 0; conn_env := env_refused; armed_clock := 5;
                     exec_throws := None; events := []; timer_first := true |}
                  "b" "ls" None manager_a))
    = [ClientConnect 0 connectConfig_a; ClientConnect 1 connectConfig_b].
Proof.
  split.
  - rewrite (proj1 (proj2 (executeCommand_footprint env_hangs "a" "tail -f log"
                             (Some 1) (new_compiled store_ab)))).
    vm_compute. reflexivity.
  - destruct (proj1 (executeCommand_footprint
                {| start_clock := 0; conn_env := env_refused; armed_clock := 5;
                   exec_throws := None; events := []; timer_first := true |}
                "b" "ls" None manager_a)) as (added & Ha & _).
    vm_compute. reflexivity.
Defined.

(** X21: connect("b"), whose credential names a key file and no
    password. *)
Lemma connect_opens_one_transport_witness :
  ∃ cc tail,
    actions (fst (connect env_ready_later (Some "b") manager_a))
      = (actions manager_a ++ ClientConnect 1 cc :: tail)%list ∧
    cc_host cc = "example.org" ∧ cc_port cc = 2222 ∧
    cc_privateKey cc = Some "KEY" ∧ cc_password cc = None.
Proof.
  destruct (connect_opens_one_transport env_ready_later "b" (make_server input_b)
              manager_a) as (cc & tail & H1 & _ & H3 & H4 & _ & _ & H7 & _).
  - reflexivity.
  - vm_compute. reflexivity.
  - vm_compute. reflexivity.
  - intros _. exists "KEY". reflexivity.
  - intros d. discriminate.
  - destruct (H7 eq_refl) as (content & Hk & Hp & Hw).
    injection Hk as <-.
    exists cc, tail. split; [exact H1 |]. split; [exact H3 |].
    split; [exact H4 |]. split; [exact Hp | exact Hw].
Defined.

(** X22: connect("b") when its key file is missing. *)
Lemma connect_unreadable_key_witness :
  snd (connect env_no_key (Some "b") manager_a) = Rejected (FsError "ENOENT") ∧
  actions (fst (connect env_no_key (Some "b") manager_a)) = actions manager_a ∧
  connections (fst (connect env_no_key (Some "b") manager_a)) = connections manager_a.
Proof.
  destruct (connect_unreadable_key env_no_key "b" "ENOENT" (make_server input_b)
              manager_a) as (H1 & H2 & H3 & _).
  - reflexivity.
  - vm_compute. reflexivity.
  - vm_compute. reflexivity.
  - reflexivity.
  - reflexivity.
  - split; [exact H1 |]. split; [exact H2 | exact H3].
Defined.

End MoreInstances.
